(** * TSM Server Shell (mod.ts): routing shell, static binder and MIME table

    A shallow embedding of [mod.ts].  Each definition carries the name of
    the TypeScript function it embeds.  Mutation of the [ServerShell]
    object ([this.routes], [this.middleware]) is explicit state passing;
    thrown exceptions are the left injection of a sum; the calls the shell
    makes to code it does not own (the hook, the route callbacks, the file
    system) are recorded in a trace. *)

From Stdlib Require Import String Ascii List Bool Arith Lia ZArith.
Import ListNotations.
Local Open Scope string_scope.

(** ** JavaScript string primitives used by mod.ts *)

Module JS.

(** [String.prototype.toUpperCase] and [toLowerCase], on the ASCII letters.
    The only strings mod.ts passes to them are HTTP method tokens, which
    RFC 9110 restricts to ASCII; other characters are left alone here. *)
Definition upper_ascii (c : ascii) : ascii :=
  let n := nat_of_ascii c in
  if ((97 <=? n) && (n <=? 122))%nat then ascii_of_nat (n - 32) else c.

Definition lower_ascii (c : ascii) : ascii :=
  let n := nat_of_ascii c in
  if ((65 <=? n) && (n <=? 90))%nat then ascii_of_nat (n + 32) else c.

Fixpoint map_chars (f : ascii -> ascii) (s : string) : string :=
  match s with
  | EmptyString => EmptyString
  | String c s' => String (f c) (map_chars f s')
  end.

Definition toUpperCase : string -> string := map_chars upper_ascii.
Definition toLowerCase : string -> string := map_chars lower_ascii.

(** [s.replaceAll(a, b)] for one-character [a] and [b]. *)
Definition replaceAll (a b : ascii) : string -> string :=
  map_chars (fun c => if Ascii.eqb c a then b else c).

(** [s.split(sep)] for a one-character separator: never the empty array,
    ["".split(".")] is [[""]]. *)
Fixpoint split (sep : ascii) (s : string) : list string :=
  match s with
  | EmptyString => [EmptyString]
  | String c s' =>
      if Ascii.eqb c sep then EmptyString :: split sep s'
      else match split sep s' with
           | [] => [String c EmptyString]
           | seg :: segs => String c seg :: segs
           end
  end.

(** [arr.join(sep)]. *)
Fixpoint join (sep : string) (arr : list string) : string :=
  match arr with
  | [] => EmptyString
  | [x] => x
  | x :: rest => x ++ sep ++ join sep rest
  end.

(** [arr[arr.length - 1]] on an array of strings; [None] is [undefined]. *)
Definition last_elem (arr : list string) : option string :=
  nth_error arr (length arr - 1).

(** [arr.pop()] as the array left behind. *)
Definition pop (arr : list string) : list string := removelast arr.

End JS.

(** ** The UTF-8 [TextDecoder]

    [new TextDecoder('utf-8').decode(bytes)] as the Encoding standard
    defines it: a leading byte order mark is dropped, and every byte
    sequence that is not well-formed UTF-8 becomes U+FFFD.  Bytes are the
    characters of a string.  The decoded text is kept as its UTF-8
    encoding, the form in which a [Response] sends a string body; a
    well-formed sequence encodes back to itself, so it is passed
    through. *)

Module Encoding.

Definition byte_in (lo hi : nat) (b : ascii) : bool :=
  let n := nat_of_ascii b in ((lo <=? n) && (n <=? hi))%nat.

(** U+FFFD in UTF-8: EF BF BD. *)
Definition replacement : string :=
  String (ascii_of_nat 239) (String (ascii_of_nat 191)
    (String (ascii_of_nat 189) EmptyString)).

(** What a byte starts when no sequence is open: itself, a sequence of
    [needed] more bytes whose next byte lies in [lower..upper], or
    nothing. *)
Inductive Lead : Type :=
| Single
| Begin (needed lower upper : nat)
| Invalid.

Definition lead (b : ascii) : Lead :=
  let n := nat_of_ascii b in
  if (n <=? 127)%nat then Single
  else if byte_in 194 223 b then Begin 1 128 191
  else if byte_in 224 239 b then
    Begin 2 (if (n =? 224)%nat then 160 else 128)
            (if (n =? 237)%nat then 159 else 191)
  else if byte_in 240 244 b then
    Begin 3 (if (n =? 240)%nat then 144 else 128)
            (if (n =? 244)%nat then 143 else 191)
  else Invalid.

(** The decoder's handler run over the input: [pending] holds the bytes
    of the open sequence, [needed] how many more it wants.  A byte that
    cannot continue the open sequence ends it with U+FFFD and is looked at
    again as a first byte; input that ends inside a sequence ends with
    U+FFFD. *)
Fixpoint utf8_decode (bytes pending : string) (needed lower upper : nat)
  : string :=
  match bytes with
  | EmptyString =>
      match needed with
      | 0 => EmptyString
      | S _ => replacement
      end
  | String b rest =>
      let first := fun _ : unit =>
        match lead b with
        | Single => String b (utf8_decode rest EmptyString 0 128 191)
        | Begin n lo hi => utf8_decode rest (String b EmptyString) n lo hi
        | Invalid => replacement ++ utf8_decode rest EmptyString 0 128 191
        end in
      match needed with
      | 0 => first tt
      | S n' =>
          if byte_in lower upper b then
            match n' with
            | 0 => pending ++ String b (utf8_decode rest EmptyString 0 128 191)
            | S _ => utf8_decode rest (pending ++ String b EmptyString) n' 128 191
            end
          else replacement ++ first tt
      end
  end.

(** EF BB BF at the start of the input is not part of the text. *)
Definition strip_BOM (bytes : string) : string :=
  match bytes with
  | String b1 (String b2 (String b3 rest)) =>
      if (nat_of_ascii b1 =? 239)%nat && (nat_of_ascii b2 =? 187)%nat
         && (nat_of_ascii b3 =? 191)%nat
      then rest else bytes
  | _ => bytes
  end.

Definition TextDecoder_utf8 (bytes : string) : string :=
  utf8_decode (strip_BOM bytes) EmptyString 0 128 191.

(** Every byte is below 80. *)
Fixpoint all_ascii (s : string) : bool :=
  match s with
  | EmptyString => true
  | String b rest => (nat_of_ascii b <=? 127)%nat && all_ascii rest
  end.

End Encoding.

(** ** The host runtime

    What Deno supplies and mod.ts only uses: the state that hooks and
    route callbacks may read and change ([World], which contains the
    console), the opaque [Deno.ServeHandlerInfo], JavaScript values, the
    WHATWG URL parser and the UTF-8 [TextDecoder]. *)

Class Host : Type := {
  World : Type;
  Info : Type;
  JSValue : Type;
  undefined : JSValue;
  Bytes : Type;
  console_log : string -> World -> World;
  URL_pathname : string -> string;
  TextDecoder_decode : Bytes -> string
}.

Definition dquote : string := String (ascii_of_nat 34) EmptyString.

Section Shell.

Context {host : Host}.

(** *** Data model *)

(** Anything a [throw] can carry: the shell's own error class, or a value
    thrown by user code. *)
Inductive Throwable : Type :=
| RouteAlreadyBoundError (route : string)
| Thrown (v : JSValue).

(** [super(`Route "${route}" is already bound.`)] *)
Definition RouteAlreadyBoundError_message (route : string) : string :=
  "Route " ++ dquote ++ route ++ dquote ++ " is already bound.".

(** The inbound [Request]: the two fields mod.ts reads, and the rest. *)
Record Request : Type := mkRequest {
  url : string;
  method : string;
  rest : JSValue
}.

Inductive BodyInit : Type :=
| BodyText (text : string)
| BodyOther (v : JSValue).

Record ResponseInit : Type := mkResponseInit {
  headers : option (list (string * string));
  status : option Z
}.

(** [interface ResponseConstructor { body?: BodyInit, init?: ResponseInit }] *)
Record ResponseConstructor : Type := mkResponseConstructor {
  body : option BodyInit;
  init : option ResponseInit
}.

(** [new Response(body, init)], kept as the pair it was built from. *)
Inductive Response : Type :=
| new_Response (b : option BodyInit) (i : option ResponseInit).

Definition Response_body (r : Response) : option BodyInit :=
  match r with new_Response b _ => b end.

(** The status of a response; the Fetch default is 200. *)
Definition Response_status (r : Response) : Z :=
  match r with
  | new_Response _ (Some {| status := Some st |}) => st
  | new_Response _ _ => 200%Z
  end.

Fixpoint assoc (k : string) (kvs : list (string * string)) : option string :=
  match kvs with
  | [] => None
  | (k', v) :: kvs' => if String.eqb k' k then Some v else assoc k kvs'
  end.

Definition Response_header (name : string) (r : Response) : option string :=
  match r with
  | new_Response _ (Some {| headers := Some hs |}) => assoc name hs
  | new_Response _ _ => None
  end.

(** User code: a function of the request that may change the world, and
    either throws (a rejected promise, once awaited) or yields a value. *)
Definition Task (A : Type) : Type := World -> World * (Throwable + A).

Definition Listener : Type := Request -> Info -> Task ResponseConstructor.
Definition Middleware : Type := Request -> Info -> Task JSValue.

(** [class Route] *)
Record Route : Type := new_Route {
  path : string;
  route_method : string;
  callback : Listener
}.

(** [Route.equals] *)
Definition Route_equals (this : Route) (path' method' : string) : bool :=
  if String.eqb (path this) path' && String.eqb (route_method this) method'
  then true
  else false.

(** [Deno.ServeOptions], the two fields of the default config. *)
Record ServeOptions : Type := mkServeOptions {
  hostname : option string;
  port : option Z
}.

(** [class ServerShell]: its three private fields. *)
Record ServerShell : Type := mkServerShell {
  routes : list Route;
  middleware : Middleware;
  config : ServeOptions
}.

(** [constructor(config = {hostname: 'localhost', port: 8000})], with the
    field initialisers [routes = []] and [middleware = () => {}]. *)
Definition ServerShell_new (config' : option ServeOptions) : ServerShell :=
  {| routes := [];
     middleware := fun _ _ w => (w, inr undefined);
     config := match config' with
               | Some c => c
               | None => {| hostname := Some "localhost"; port := Some 8000%Z |}
               end |}.

(** *** Effects *)

(** What the shell asks of code it does not own. *)
Inductive Event : Type :=
| Call_middleware (req : Request) (info : Info)
| Call_callback (route : Route) (req : Request) (info : Info)
| ReadDirSync (dir : string)
| ReadFileSync (file : string).

Record Outcome (S A : Type) : Type := mkOutcome {
  final : S;
  trace : list Event;
  result : Throwable + A
}.
Arguments mkOutcome {S A}.
Arguments final {S A}.
Arguments trace {S A}.
Arguments result {S A}.

(** State [S], a trace of events, and exceptions. *)
Definition Eff (S A : Type) : Type := S -> Outcome S A.

Definition ret {S A} (a : A) : Eff S A :=
  fun s => mkOutcome s [] (inr a).

Definition throw {S A} (e : Throwable) : Eff S A :=
  fun s => mkOutcome s [] (inl e).

Definition emit {S} (ev : Event) : Eff S unit :=
  fun s => mkOutcome s [ev] (inr tt).

Definition bind {S A B} (m : Eff S A) (k : A -> Eff S B) : Eff S B :=
  fun s =>
    let o := m s in
    match result o with
    | inl e => mkOutcome (final o) (trace o) (inl e)
    | inr a =>
        let o' := k a (final o) in
        mkOutcome (final o') (trace o ++ trace o') (result o')
    end.

Local Notation "x <- m ;; k" := (bind m (fun x => k))
  (at level 61, m at next level, right associativity).
Local Notation "m ;;; k" := (bind m (fun _ => k))
  (at level 61, right associativity).

Definition get_state {S} : Eff S S := fun s => mkOutcome s [] (inr s).
Definition put_state {S} (s' : S) : Eff S unit := fun _ => mkOutcome s' [] (inr tt).

(** Running user code inside the dispatcher. *)
Definition run_task {A} (t : Task A) : Eff World A :=
  fun w => let (w', r) := t w in mkOutcome w' [] r.

(** [for (const x of arr) body(x)] and [arr.forEach(body)]. *)
Definition for_of {S A} (arr : list A) (body : A -> Eff S unit) : Eff S unit :=
  (fix loop (l : list A) : Eff S unit :=
     match l with
     | [] => ret tt
     | x :: l' => body x ;;; loop l'
     end) arr.

(** *** The request handler given to [Deno.serve] in [listen] *)

(** [this.middleware(req, info);] *)
Definition call_middleware (mw : Middleware) (req : Request) (info : Info)
  : Eff World JSValue :=
  emit (Call_middleware req info) ;;; run_task (mw req info).

(** [await route.callback(req, info)] *)
Definition await_callback (route : Route) (req : Request) (info : Info)
  : Eff World ResponseConstructor :=
  emit (Call_callback route req info) ;;; run_task (callback route req info).

(** The default payload built before the loop. *)
Definition cannot (method' pathname : string) : ResponseConstructor :=
  {| body := Some (BodyText ("Cannot " ++ JS.toLowerCase method' ++ " " ++ pathname));
     init := Some {| headers := Some [("Content-Type", "text/html")];
                     status := Some 404%Z |} |}.

(** [for (const route of this.routes) { ... }], with the local variable
    [returnvalue] threaded through the iterations. *)
Fixpoint route_loop (rs : list Route) (pathname method' : string)
    (req : Request) (info : Info) (returnvalue : ResponseConstructor)
  : Eff World ResponseConstructor :=
  match rs with
  | [] => ret returnvalue
  | route :: rs' =>
      returnvalue' <-
        (if Route_equals route pathname method'
         then await_callback route req info
         else if String.eqb (path route) pathname
                 && String.eqb (route_method route) "ANY"
         then await_callback route req info
         else ret returnvalue) ;;
      route_loop rs' pathname method' req info returnvalue'
  end.

(** [listen]: the [async (req, info) => { ... }] it passes to
    [Deno.serve]. *)
Definition listen_handler (this : ServerShell) (req : Request) (info : Info)
  : Eff World Response :=
  let pathname := URL_pathname (url req) in
  let method' := JS.toUpperCase (method req) in
  call_middleware (middleware this) req info ;;;
  returnvalue <- route_loop (routes this) pathname method' req info
                   (cannot method' pathname) ;;
  ret (new_Response (body returnvalue) (init returnvalue)).

(** *** Registration *)

Definition this_routes : Eff ServerShell (list Route) :=
  this <- get_state ;; ret (routes this).

(** [this.routes.push(route)] *)
Definition routes_push (route : Route) : Eff ServerShell unit :=
  this <- get_state ;;
  put_state {| routes := routes this ++ [route];
               middleware := middleware this;
               config := config this |}.

(** [use] *)
Definition use (middleware' : Middleware) : Eff ServerShell unit :=
  this <- get_state ;;
  put_state {| routes := routes this;
               middleware := middleware';
               config := config this |}.

(** [get] *)
Definition get (path' : string) (listener : Listener) : Eff ServerShell unit :=
  rs <- this_routes ;;
  for_of rs (fun route =>
    if String.eqb (path route) path'
       && (String.eqb (route_method route) "GET" || String.eqb (route_method route) "ANY")
    then throw (RouteAlreadyBoundError path')
    else ret tt) ;;;
  routes_push (new_Route path' "GET" listener).

(** [post] *)
Definition post (path' : string) (listener : Listener) : Eff ServerShell unit :=
  rs <- this_routes ;;
  for_of rs (fun route =>
    if String.eqb (path route) path'
       && (String.eqb (route_method route) "POST" || String.eqb (route_method route) "ANY")
    then throw (RouteAlreadyBoundError path')
    else ret tt) ;;;
  routes_push (new_Route path' "POST" listener).

(** [options] *)
Definition options (path' : string) (listener : Listener) : Eff ServerShell unit :=
  rs <- this_routes ;;
  for_of rs (fun route =>
    if String.eqb (path route) path'
       && (String.eqb (route_method route) "OPTIONS" || String.eqb (route_method route) "ANY")
    then throw (RouteAlreadyBoundError path')
    else ret tt) ;;;
  routes_push (new_Route path' "OPTIONS" listener).

(** [put] *)
Definition put (path' : string) (listener : Listener) : Eff ServerShell unit :=
  rs <- this_routes ;;
  for_of rs (fun route =>
    if String.eqb (path route) path'
       && (String.eqb (route_method route) "PUT" || String.eqb (route_method route) "ANY")
    then throw (RouteAlreadyBoundError path')
    else ret tt) ;;;
  routes_push (new_Route path' "PUT" listener).

(** [delete] *)
Definition delete (path' : string) (listener : Listener) : Eff ServerShell unit :=
  rs <- this_routes ;;
  for_of rs (fun route =>
    if String.eqb (path route) path'
       && (String.eqb (route_method route) "DELETE" || String.eqb (route_method route) "ANY")
    then throw (RouteAlreadyBoundError path')
    else ret tt) ;;;
  routes_push (new_Route path' "DELETE" listener).

(** [any] *)
Definition any (path' : string) (listener : Listener) : Eff ServerShell unit :=
  rs <- this_routes ;;
  for_of rs (fun route =>
    if String.eqb (path route) path'
    then throw (RouteAlreadyBoundError path')
    else ret tt) ;;;
  routes_push (new_Route path' "ANY" listener).

(** *** [MIMEFromExt] *)

(** How a template literal prints a possibly [undefined] string. *)
Definition template (x : option string) : string :=
  match x with
  | Some s => s
  | None => "undefined"
  end.

Definition unknown_extension_notice (extension : option string) : string :=
  "Encountered unknown extension while generating static routes: ."
  ++ template extension
  ++ " - If you want this fixed as quickly as possible, open an issue at https://github.com/SaphirDeFeu/TSMServerShell-Deno/issues".

(** The [switch] of [MIMEFromExt]; [None] is the [default] arm. *)
Definition MIME_switch (extension : string) : option string :=
  let case := String.eqb extension in
  (* text/ *)
  if case "html" || case "htm" then Some "text/html"
  else if case "css" then Some "text/css"
  else if case "js" || case "mjs" then Some "text/javascript"
  else if case "txt" then Some "text/plain"
  (* image/ *)
  else if case "svg" then Some "image/svg+xml"
  else if case "apng" then Some "image/apng"
  else if case "png" then Some "image/png"
  else if case "gif" then Some "image/gif"
  else if case "jpg" || case "jpeg" then Some "image/jpeg"
  else if case "ico" then Some "image/vnd.microsoft.icon"
  else if case "mp4" then Some "video/mp4"
  else if case "mpeg" then Some "video/mpeg"
  else if case "ogv" then Some "video/ogg"
  else if case "mp3" then Some "audio/mpeg"
  else if case "oga" then Some "audio/ogg"
  (* application/ *)
  else if case "json" then Some "application/json"
  else if case "xml" then Some "application/xml"
  else if case "zip" then Some "application/zip"
  else if case "7z" then Some "application/x-7z-compressed"
  else if case "rar" then Some "application/vnd.rar"
  else if case "tar" then Some "application/x-tar"
  else if case "gz" then Some "application/gzip"
  else if case "php" then Some "application/x-httpd-php"
  else if case "pdf" then Some "application/pdf"
  else if case "sh" then Some "application/x-sh"
  (* font/ *)
  else if case "otf" then Some "font/otf"
  else if case "ttf" then Some "font/ttf"
  else None.

(** The [case] labels of the [switch] and what each returns, in order. *)
Definition MIME_table : list (string * string) :=
  [ ("html", "text/html"); ("htm", "text/html");
    ("css", "text/css");
    ("js", "text/javascript"); ("mjs", "text/javascript");
    ("txt", "text/plain");
    ("svg", "image/svg+xml");
    ("apng", "image/apng");
    ("png", "image/png");
    ("gif", "image/gif");
    ("jpg", "image/jpeg"); ("jpeg", "image/jpeg");
    ("ico", "image/vnd.microsoft.icon");
    ("mp4", "video/mp4");
    ("mpeg", "video/mpeg");
    ("ogv", "video/ogg");
    ("mp3", "audio/mpeg");
    ("oga", "audio/ogg");
    ("json", "application/json");
    ("xml", "application/xml");
    ("zip", "application/zip");
    ("7z", "application/x-7z-compressed");
    ("rar", "application/vnd.rar");
    ("tar", "application/x-tar");
    ("gz", "application/gzip");
    ("php", "application/x-httpd-php");
    ("pdf", "application/pdf");
    ("sh", "application/x-sh");
    ("otf", "font/otf"); ("ttf", "font/ttf") ].

(** [MIMEFromExt]: the content type, and the world after the
    [console.log] of the [default] arm.  The argument is optional because
    an array read out of range hands it [undefined]. *)
Definition MIMEFromExt (extension : option string) (w : World) : World * string :=
  match match extension with Some e => MIME_switch e | None => None end with
  | Some mime => (w, mime)
  | None => (console_log (unknown_extension_notice extension) w, "text/plain")
  end.

End Shell.

Arguments mkOutcome {host S A}.
Arguments final {host S A}.
Arguments trace {host S A}.
Arguments result {host S A}.

(** ** [join] of deno.land/std@0.215.0/path, POSIX flavour

    mod.ts imports [join] and does not define it.  This is the library's
    POSIX [join] and [normalize], written over the segments between
    slashes rather than character by character: empty and ["."] segments
    are dropped, a [".."] segment removes the segment before it, a leading
    slash and a trailing slash are kept. *)

Module Path.

Definition starts_with_slash (p : string) : bool :=
  match p with
  | String c _ => Ascii.eqb c "/"
  | EmptyString => false
  end.

Fixpoint ends_with_slash (p : string) : bool :=
  match p with
  | EmptyString => false
  | String c EmptyString => Ascii.eqb c "/"
  | String _ p' => ends_with_slash p'
  end.

(** [normalizeString]: [res] is the output so far, last segment first. *)
Fixpoint normalizeString (allowAboveRoot : bool) (segs res : list string)
  : list string :=
  match segs with
  | [] => rev res
  | seg :: segs' =>
      if String.eqb seg EmptyString || String.eqb seg "." then
        normalizeString allowAboveRoot segs' res
      else if String.eqb seg ".." then
        match res with
        | top :: res' =>
            if String.eqb top ".." then
              normalizeString allowAboveRoot segs'
                (if allowAboveRoot then ".." :: res else res)
            else normalizeString allowAboveRoot segs' res'
        | [] =>
            normalizeString allowAboveRoot segs'
              (if allowAboveRoot then [".."] else [])
        end
      else normalizeString allowAboveRoot segs' (seg :: res)
  end.

Definition normalize (p : string) : string :=
  if String.eqb p EmptyString then "." else
  let isAbsolute := starts_with_slash p in
  let trailingSeparator := ends_with_slash p in
  let p1 := JS.join "/" (normalizeString (negb isAbsolute) (JS.split "/" p) []) in
  let p2 := if String.eqb p1 EmptyString && negb isAbsolute then "." else p1 in
  let p3 := if negb (String.eqb p2 EmptyString) && trailingSeparator
            then p2 ++ "/" else p2 in
  if isAbsolute then "/" ++ p3 else p3.

(** [join(a, b)] *)
Definition join (a b : string) : string :=
  match filter (fun p => negb (String.eqb p EmptyString)) [a; b] with
  | [] => "."
  | parts => normalize (JS.join "/" parts)
  end.

End Path.

(** ** [useStatic] *)

Section Static.

Context {host : Host}.

Local Notation "x <- m ;; k" := (bind m (fun x => k))
  (at level 61, m at next level, right associativity).
Local Notation "m ;;; k" := (bind m (fun _ => k))
  (at level 61, right associativity).

(** A [Deno.DirEntry] together with what reading it yields: a regular
    file and its bytes, a directory and its entries, or an entry that is
    neither ([isFile] and [isDirectory] both false). *)
#[local] Unset Elimination Schemes.
Inductive DirEntry : Type :=
| File (name : string) (data : Bytes)
| Directory (name : string) (entries : list DirEntry)
| Symlink (name : string).
#[local] Set Elimination Schemes.

Definition entry_name (entry : DirEntry) : string :=
  match entry with
  | File name _ | Directory name _ | Symlink name => name
  end.

Definition option_string_eqb (x : option string) (s : string) : bool :=
  match x with
  | Some s' => String.eqb s' s
  | None => false
  end.

(** The listener [useStatic] hands to [get]. *)
Definition static_listener (contents : string) (extension : option string)
  : Listener :=
  fun _ _ w =>
    let (w', mime) := MIMEFromExt extension w in
    (w', inr {| body := Some (BodyText contents);
                init := Some {| headers := Some [("Content-Type", mime)];
                                status := Some 200%Z |} |}).

(** The [else if (entry.isFile)] arm, after [contents] has been read. *)
Definition useStatic_file (pathnameRoute name contents : string)
  : Eff ServerShell unit :=
  let splitFileName := JS.split "." name in
  let extension := JS.last_elem splitFileName in
  let splitFileName := JS.pop splitFileName in
  let name' := JS.join "." splitFileName in
  let pathnameRoute :=
    if String.eqb name' "index" && option_string_eqb extension "html"
    then Path.join pathnameRoute ".."
    else pathnameRoute in
  get (JS.replaceAll "\" "/" pathnameRoute) (static_listener contents extension).

(** The body of the [for] loop of [useStatic], for one entry. *)
Fixpoint useStatic_entry (staticDirectory staticRoute : string)
    (entry : DirEntry) {struct entry} : Eff ServerShell unit :=
  let pathnameDir := Path.join staticDirectory (entry_name entry) in
  let pathnameRoute := Path.join staticRoute (entry_name entry) in
  match entry with
  | Directory _ entries =>
      emit (ReadDirSync pathnameDir) ;;;
      for_of entries (useStatic_entry pathnameDir pathnameRoute)
  | File name data =>
      emit (ReadFileSync pathnameDir) ;;;
      useStatic_file pathnameRoute name (TextDecoder_decode data)
  | Symlink _ => ret tt
  end.

(** [useStatic(staticDirectory, staticRoute)], where [entries] is what
    [Deno.readDirSync(staticDirectory)] yields. *)
Definition useStatic (staticDirectory staticRoute : string)
    (entries : list DirEntry) : Eff ServerShell unit :=
  emit (ReadDirSync staticDirectory) ;;;
  for_of entries (useStatic_entry staticDirectory staticRoute).

(** *** Setup calls and the tables they can build *)

Inductive Verb : Type := GET | POST | OPTIONS | PUT | DELETE | ANY.

Definition verb_name (v : Verb) : string :=
  match v with
  | GET => "GET" | POST => "POST" | OPTIONS => "OPTIONS"
  | PUT => "PUT" | DELETE => "DELETE" | ANY => "ANY"
  end.

(** The six binding methods, selected by verb. *)
Definition register (v : Verb) : string -> Listener -> Eff ServerShell unit :=
  match v with
  | GET => get | POST => post | OPTIONS => options
  | PUT => put | DELETE => delete | ANY => any
  end.

(** One call on the setup surface of a [ServerShell]. *)
Inductive Call : Type :=
| Bind (v : Verb) (path' : string) (listener : Listener)
| Use (middleware' : Middleware)
| UseStatic (staticDirectory staticRoute : string) (entries : list DirEntry).

Definition run_call (c : Call) : Eff ServerShell unit :=
  match c with
  | Bind v path' listener => register v path' listener
  | Use middleware' => use middleware'
  | UseStatic staticDirectory staticRoute entries =>
      useStatic staticDirectory staticRoute entries
  end.

(** The shell after a sequence of calls; a call that throws leaves the
    object as it was when the exception left it, and the caller goes on. *)
Definition run_calls (cs : list Call) (this : ServerShell) : ServerShell :=
  fold_left (fun s c => final (run_call c s)) cs this.

Definition is_Use (c : Call) : bool :=
  match c with Use _ => true | _ => false end.

(** *** The vocabulary of the specification *)

(** What the handler makes of the loop's result. *)
Definition respond (r : Throwable + ResponseConstructor) : Throwable + Response :=
  match r with
  | inl e => inl e
  | inr returnvalue => inr (new_Response (body returnvalue) (init returnvalue))
  end.

(** The shell with more bindings at the end of its table. *)
Definition add_routes (this : ServerShell) (rs : list Route) : ServerShell :=
  {| routes := routes this ++ rs;
     middleware := middleware this;
     config := config this |}.

(** The content type [MIMEFromExt] returns, without the console. *)
Definition content_type_of (extension : option string) : string :=
  match extension with
  | Some e => match MIME_switch e with
              | Some mime => mime
              | None => "text/plain"
              end
  | None => "text/plain"
  end.

(** The shell with one more binding at the end of its table. *)
Definition with_route (this : ServerShell) (r : Route) : ServerShell :=
  {| routes := routes this ++ [r];
     middleware := middleware this;
     config := config this |}.

(** A binding conflicts with a registration of verb [v] at [path']: same
    path and same method, or either side is ANY. *)
Definition conflicts (v : Verb) (path' : string) (r : Route) : bool :=
  String.eqb (path r) path'
  && (String.eqb (route_method r) (verb_name v)
      || String.eqb (route_method r) "ANY"
      || String.eqb (verb_name v) "ANY").

(** A property of shells kept by pushing a binding that does not
    conflict. *)
Definition push_closed (P : ServerShell -> Prop) : Prop :=
  forall v s p l,
    P s -> existsb (conflicts v p) (routes s) = false ->
    P (with_route s (new_Route p (verb_name v) l)).

(** A binding matches a request: equal path, and equal method or ANY. *)
Definition matches (pathname method' : string) (r : Route) : bool :=
  String.eqb (path r) pathname
  && (String.eqb (route_method r) method' || String.eqb (route_method r) "ANY").

(** [resolve] in the words of the specification: the first match. *)
Definition spec_resolve (rs : list Route) (pathname method' : string)
  : option Route :=
  find (matches pathname method') rs.

Definition bindings_for (path' method' : string) (rs : list Route) : list Route :=
  filter (fun r => String.eqb (path r) path' && String.eqb (route_method r) method') rs.

(** The uniqueness invariant of the route table. *)
Definition uniqueness (rs : list Route) : Prop :=
  forall p : string,
    (bindings_for p "ANY" rs = []
     /\ forall m, length (bindings_for p m rs) <= 1)
    \/ (length (bindings_for p "ANY" rs) = 1
        /\ forall m, m <> "ANY" -> bindings_for p m rs = []).

(** The callbacks the dispatcher invoked, in order. *)
Definition callbacks_called (t : list Event) : list Route :=
  flat_map (fun ev => match ev with
                      | Call_callback r _ _ => [r]
                      | _ => []
                      end) t.

Definition middleware_calls (t : list Event) : nat :=
  length (filter (fun ev => match ev with
                            | Call_middleware _ _ => true
                            | _ => false
                            end) t).

Definition files_read (t : list Event) : list string :=
  flat_map (fun ev => match ev with
                      | ReadFileSync f => [f]
                      | _ => []
                      end) t.

(** Two bindings can share a table: different paths, or different
    methods neither of which is ANY. *)
Definition compatible (a b : Route) : bool :=
  negb (String.eqb (path a) (path b)
        && (String.eqb (route_method a) (route_method b)
            || String.eqb (route_method a) "ANY"
            || String.eqb (route_method b) "ANY")).

(** The uniqueness invariant as a check: every binding is compatible
    with every later one. *)
Fixpoint table_ok (rs : list Route) : bool :=
  match rs with
  | [] => true
  | r :: rs' => forallb (compatible r) rs' && table_ok rs'
  end.

(** The shells a program can build: a fresh one, then any calls. *)
Inductive reachable : ServerShell -> Prop :=
| reachable_new (config' : option ServeOptions) :
    reachable (ServerShell_new config')
| reachable_call (s : ServerShell) (c : Call) :
    reachable s -> reachable (final (run_call c s)).

(** Calling every binding of a list in turn, each in the world the one
    before left, keeping the last payload; a throw ends it. *)
Fixpoint call_each (rs : list Route) (req : Request) (info : Info)
    (returnvalue : ResponseConstructor) : Eff World ResponseConstructor :=
  match rs with
  | [] => ret returnvalue
  | r :: rs' =>
      bind (await_callback r req info) (fun rv => call_each rs' req info rv)
  end.

(** Dispatch as the specification words it: with [w1] the world the hook
    left, the outcome [o] is that of calling the first match and nothing
    else, or the 404 payload when nothing matches. *)
Definition first_match_only (s : ServerShell) (req : Request) (info : Info)
    (w1 : World) (o : Outcome World Response) : Prop :=
  let pathname := URL_pathname (url req) in
  let method' := JS.toUpperCase (method req) in
  match spec_resolve (routes s) pathname method' with
  | Some r =>
      callbacks_called (trace o) = [r]
      /\ final o = fst (callback r req info w1)
      /\ result o = respond (snd (callback r req info w1))
  | None =>
      callbacks_called (trace o) = []
      /\ final o = w1
      /\ result o = respond (inr (cannot method' pathname))
  end.

(** Equality of verbs. *)
Definition Verb_eqb (v v' : Verb) : bool :=
  match v, v' with
  | GET, GET | POST, POST | OPTIONS, OPTIONS
  | PUT, PUT | DELETE, DELETE | ANY, ANY => true
  | _, _ => false
  end.

(** The shell with another hook. *)
Definition with_middleware (this : ServerShell) (middleware' : Middleware)
  : ServerShell :=
  {| routes := routes this;
     middleware := middleware';
     config := config this |}.

(** A setup computation that neither reads nor writes the hook: run on
    the shell with another hook, it does the same and leaves that hook. *)
Definition hook_independent (c : Eff ServerShell unit) : Prop :=
  forall (s : ServerShell) (m : Middleware),
    c (with_middleware s m)
    = mkOutcome (with_middleware (final (c s)) m) (trace (c s)) (result (c s)).

(** A tree with no regular file in it. *)
Definition demo_empty_tree : list (DirEntry) :=
  [ Directory "empty" []; Symlink "link";
    Directory "nested" [ Directory "deeper" [] ] ].

(** *** The regular files of a tree *)

Record StaticFile : Type := mkStaticFile {
  sf_dirs : list string;   (* directories between the root and the file *)
  sf_name : string;
  sf_data : Bytes
}.

Fixpoint regular_files (dirs : list string) (entry : DirEntry) : list StaticFile :=
  match entry with
  | File name data => [ {| sf_dirs := dirs; sf_name := name; sf_data := data |} ]
  | Directory name entries => flat_map (regular_files (dirs ++ [name])) entries
  | Symlink _ => []
  end.

Definition tree_files (entries : list DirEntry) : list StaticFile :=
  flat_map (regular_files []) entries.

(** [(name, extension)] as [useStatic] computes them from a file name. *)
Definition file_extension (name : string) : option string :=
  JS.last_elem (JS.split "." name).

Definition file_stem (name : string) : string :=
  JS.join "." (JS.pop (JS.split "." name)).

(** The file-system path [useStatic] reads a file from. *)
Definition static_source (staticDirectory : string) (f : StaticFile) : string :=
  fold_left Path.join (sf_dirs f ++ [sf_name f]) staticDirectory.

(** The route [useStatic] binds a file to. *)
Definition static_route (staticRoute : string) (f : StaticFile) : string :=
  let pathnameRoute := fold_left Path.join (sf_dirs f ++ [sf_name f]) staticRoute in
  JS.replaceAll "\" "/"
    (if String.eqb (file_stem (sf_name f)) "index"
        && option_string_eqb (file_extension (sf_name f)) "html"
     then Path.join pathnameRoute ".."
     else pathnameRoute).

Definition static_binding (staticRoute : string) (f : StaticFile) : Route :=
  new_Route (static_route staticRoute f) "GET"
    (static_listener (TextDecoder_decode (sf_data f)) (file_extension (sf_name f))).

(** How far a walk over the regular files [fs] got: it bound the files
    [fs1]; either that is all of them and it returned, or the file after
    them was read and its route refused, and nothing after it was
    touched. *)
Definition walked (d0 r0 : string) (fs : list StaticFile) (s : ServerShell)
    (o : Outcome ServerShell unit) : Prop :=
  exists fs1 fs2,
    fs = (fs1 ++ fs2)%list
    /\ final o = add_routes s (map (static_binding r0) fs1)
    /\ ((result o = inr tt
         /\ fs2 = []
         /\ files_read (trace o) = map (static_source d0) fs1)
        \/ (exists f fs3,
              fs2 = f :: fs3
              /\ result o = inl (RouteAlreadyBoundError (static_route r0 f))
              /\ files_read (trace o) = map (static_source d0) (fs1 ++ [f])%list)).

(** The route of a file in the words of the specification: the prefix,
    the directories and the file name joined by slashes, or the parent of
    that for [index.html]; then backslashes become slashes. *)
Definition spec_static_route (prefix dirs : list string) (name : string) : string :=
  JS.replaceAll "\" "/"
    ("/" ++ JS.join "/" (if String.eqb name "index.html"
                         then prefix ++ dirs
                         else prefix ++ dirs ++ [name])).

(** A name a directory listing can hold: not empty, no slash, and neither
    ["."] nor [".."]. *)
Fixpoint has_char (c : ascii) (s : string) : bool :=
  match s with
  | EmptyString => false
  | String c' s' => Ascii.eqb c' c || has_char c s'
  end.

Definition entry_name_ok (name : string) : bool :=
  negb (String.eqb name EmptyString)
  && negb (has_char "/" name)
  && negb (String.eqb name ".")
  && negb (String.eqb name "..").

End Static.

(** ** The earlier revision of mod.ts kept in the repository

    Where it differs from mod.ts: the loop of [listen] has no ANY arm,
    there are only [get] and [post] and both refuse any binding on a
    bound path, [useStatic] takes the second and the first element of the
    split name, and the MIME table is shorter and silent. *)

Module Legacy.

Section Revision.

Context {host : Host}.

(** The loop of [listen]. *)
Fixpoint route_loop (rs : list Route) (pathname method' : string)
    (req : Request) (info : Info) (returnvalue : ResponseConstructor)
  : Eff World ResponseConstructor :=
  match rs with
  | [] => ret returnvalue
  | route :: rs' =>
      bind (if Route_equals route pathname method'
            then await_callback route req info
            else ret returnvalue)
           (fun returnvalue' => route_loop rs' pathname method' req info returnvalue')
  end.

(** [get] *)
Definition get (path' : string) (listener : Listener) : Eff ServerShell unit :=
  bind this_routes (fun rs =>
  bind (for_of rs (fun route =>
          if String.eqb (path route) path'
          then throw (RouteAlreadyBoundError path')
          else ret tt))
       (fun _ => routes_push (new_Route path' "GET" listener))).

(** [post] *)
Definition post (path' : string) (listener : Listener) : Eff ServerShell unit :=
  bind this_routes (fun rs =>
  bind (for_of rs (fun route =>
          if String.eqb (path route) path'
          then throw (RouteAlreadyBoundError path')
          else ret tt))
       (fun _ => routes_push (new_Route path' "POST" listener))).

(** [entry.name.split('.')[1]] *)
Definition file_extension (name : string) : option string :=
  nth_error (JS.split "." name) 1.

(** [entry.name.split('.')[0]] *)
Definition file_stem (name : string) : option string :=
  nth_error (JS.split "." name) 0.

(** [MIMEFromExt] *)
Definition MIMEFromExt (extension : option string) : string :=
  match extension with
  | None => "text/plain"
  | Some extension =>
      let case := String.eqb extension in
      (* Common HTML document extensions *)
      if case "html" || case "htm" then "text/html"
      else if case "css" then "text/css"
      else if case "js" || case "mjs" then "text/javascript"
      else if case "php" then "application/x-httpd-php"
      (* Media formats *)
      else if case "svg" then "image/svg+xml"
      else if case "apng" then "image/apng"
      else if case "gif" then "image/gif"
      else if case "jpg" || case "jpeg" then "image/jpeg"
      else if case "ico" then "image/vnd.microsoft.icon"
      (* Data types *)
      else if case "json" then "application/json"
      else if case "xml" then "application/xml"
      else if case "zip" then "application/zip"
      else if case "7z" then "application/x-7z-compressed"
      else if case "rar" then "application/vnd.rar"
      else if case "tar" then "application/x-tar"
      else if case "gz" then "application/gzip"
      (* Fonts *)
      else if case "otf" then "font/otf"
      else if case "ttf" then "font/ttf"
      else "text/plain"
  end.

(** [listen]: the request handler it passes to [Deno.serve]. *)
Definition listen_handler (this : ServerShell) (req : Request) (info : Info)
  : Eff World Response :=
  let pathname := URL_pathname (url req) in
  let method' := JS.toUpperCase (method req) in
  bind (call_middleware (middleware this) req info) (fun _ =>
  bind (route_loop (routes this) pathname method' req info
          (cannot method' pathname)) (fun returnvalue =>
  ret (new_Response (body returnvalue) (init returnvalue)))).

(** The listener [useStatic] hands to [get]. *)
Definition static_listener (contents : string) (extension : option string)
  : Listener :=
  fun _ _ w =>
    (w, inr {| body := Some (BodyText contents);
               init := Some {| headers := Some [("Content-Type", MIMEFromExt extension)];
                               status := Some 200%Z |} |}).

(** The [else if (entry.isFile)] arm of [useStatic], after [contents]
    has been read. *)
Definition useStatic_file (pathnameRoute name contents : string)
  : Eff ServerShell unit :=
  let extension := file_extension name in
  let name' := file_stem name in
  let pathnameRoute :=
    if option_string_eqb name' "index" && option_string_eqb extension "html"
    then Path.join pathnameRoute ".."
    else pathnameRoute in
  get (JS.replaceAll "\" "/" pathnameRoute) (static_listener contents extension).

(** The body of the [for] loop of [useStatic], for one entry. *)
Fixpoint useStatic_entry (staticDirectory staticRoute : string)
    (entry : DirEntry) {struct entry} : Eff ServerShell unit :=
  let pathnameDir := Path.join staticDirectory (entry_name entry) in
  let pathnameRoute := Path.join staticRoute (entry_name entry) in
  match entry with
  | Directory _ entries =>
      bind (emit (ReadDirSync pathnameDir)) (fun _ =>
      for_of entries (useStatic_entry pathnameDir pathnameRoute))
  | File name data =>
      bind (emit (ReadFileSync pathnameDir)) (fun _ =>
      useStatic_file pathnameRoute name (TextDecoder_decode data))
  | Symlink _ => ret tt
  end.

(** [useStatic] *)
Definition useStatic (staticDirectory staticRoute : string)
    (entries : list DirEntry) : Eff ServerShell unit :=
  bind (emit (ReadDirSync staticDirectory)) (fun _ =>
  for_of entries (useStatic_entry staticDirectory staticRoute)).

(** One call on the setup surface of the earlier [ServerShell]. *)
Inductive Call : Type :=
| Get (path' : string) (listener : Listener)
| Post (path' : string) (listener : Listener)
| Use (middleware' : Middleware)
| UseStatic (staticDirectory staticRoute : string) (entries : list DirEntry).

Definition run_call (c : Call) : Eff ServerShell unit :=
  match c with
  | Get path' listener => get path' listener
  | Post path' listener => post path' listener
  | Use middleware' => use middleware'
  | UseStatic staticDirectory staticRoute entries =>
      useStatic staticDirectory staticRoute entries
  end.

(** The shells a program using the earlier revision can build. *)
Inductive reachable : ServerShell -> Prop :=
| reachable_new (config' : option ServeOptions) :
    reachable (ServerShell_new config')
| reachable_call (s : ServerShell) (c : Call) :
    reachable s -> reachable (final (run_call c s)).

End Revision.

End Legacy.

(** ** A small host to run the model on *)

(** The path of an absolute URL: what follows the authority, up to the
    query or fragment. *)
Fixpoint until_query (s : string) : string :=
  match s with
  | EmptyString => EmptyString
  | String c s' =>
      if Ascii.eqb c "?" || Ascii.eqb c "#" then EmptyString
      else String c (until_query s')
  end.

Fixpoint from_slash (s : string) : string :=
  match s with
  | EmptyString => "/"
  | String c s' => if Ascii.eqb c "/" then until_query s else from_slash s'
  end.

Fixpoint after_scheme (s : string) : string :=
  match s with
  | String ":" (String "/" (String "/" s')) => from_slash s'
  | String _ s' => after_scheme s'
  | EmptyString => "/"
  end.

(** The world is the console; bytes are already text. *)
Definition demo_host : Host :=
  {| World := list string;
     Info := unit;
     JSValue := nat;
     undefined := 0;
     Bytes := string;
     console_log := fun line w => (w ++ [line])%list;
     URL_pathname := after_scheme;
     TextDecoder_decode := fun b => b |}.

(** *** Shells and requests to run *)

Definition demo_listener (text : string) : @Listener demo_host :=
  fun _ _ w => (w, inr {| body := Some (BodyText text); init := None |}).

Definition demo_request (method' url' : string) : @Request demo_host :=
  {| url := url'; method := method'; rest := @undefined demo_host |}.

Definition demo_tree : list (@DirEntry demo_host) :=
  [ @File demo_host "index.html" "<h1>home</h1>";
    @Directory demo_host "img"
      [ @File demo_host "logo.png" "PNG";
        @File demo_host "html" "no dot";
        @File demo_host "archive.tar.gz" "gz" ];
    @Symlink demo_host "link";
    @File demo_host "Makefile" "all:" ].

(** A hook that writes to the console and returns [n]. *)
Definition demo_hook (n : nat) : @Middleware demo_host :=
  fun _ _ w => ((w ++ ["hook"])%list, inr n).

Definition demo_calls : list (@Call demo_host) :=
  [ Bind GET "/a" (demo_listener "get a");
    Bind POST "/a" (demo_listener "post a");
    Bind ANY "/a" (demo_listener "refused");
    Bind ANY "/b" (demo_listener "any b");
    UseStatic "./static" "/static" demo_tree ].

(** A shell set up through its methods. *)
Definition demo_shell : @ServerShell demo_host :=
  run_calls demo_calls (ServerShell_new None).

(** A hook and a listener that throw, and a shell of the earlier
    revision. *)
Definition demo_throwing_hook : @Middleware demo_host :=
  fun _ _ w => ((w ++ ["hook"])%list, inl (@Thrown demo_host 7)).

Definition demo_throwing_listener : @Listener demo_host :=
  fun _ _ w => ((w ++ ["listener"])%list, inl (@Thrown demo_host 9)).

Definition legacy_demo_calls : list (@Legacy.Call demo_host) :=
  [ Legacy.Get "/a" (demo_listener "get a");
    Legacy.Post "/a" (demo_listener "refused");
    Legacy.Post "/b" (demo_listener "post b");
    Legacy.UseStatic "./static" "/static" demo_tree ].

Definition legacy_demo_shell : @ServerShell demo_host :=
  fold_left (fun s c => final (Legacy.run_call c s)) legacy_demo_calls
    (ServerShell_new None).

(** *** A host with the UTF-8 decoder, and a tree with a binary file *)

Definition deno_host : Host :=
  {| World := list string;
     Info := unit;
     JSValue := nat;
     undefined := 0;
     Bytes := string;
     console_log := fun line w => (w ++ [line])%list;
     URL_pathname := after_scheme;
     TextDecoder_decode := Encoding.TextDecoder_utf8 |}.

(** The first four bytes of a PNG file: 89 50 4E 47. *)
Definition png_bytes : string := String (ascii_of_nat 137) "PNG".

(** A text file that starts with a byte order mark. *)
Definition bom_bytes : string :=
  String (ascii_of_nat 239) (String (ascii_of_nat 187)
    (String (ascii_of_nat 191) "hi")).

Definition deno_tree : list (@DirEntry deno_host) :=
  [ @File deno_host "logo.png" png_bytes;
    @File deno_host "notes.txt" bom_bytes;
    @File deno_host "plain.txt" "plain text" ].

Definition deno_shell : @ServerShell deno_host :=
  final (useStatic "./static" "/static" deno_tree (ServerShell_new None)).

Definition deno_request (method' url' : string) : @Request deno_host :=
  {| url := url'; method := method'; rest := @undefined deno_host |}.

(** * Properties *)

(** ** Strings *)

Example toUpperCase_get : JS.toUpperCase "get" = "GET".
Proof. reflexivity. Qed.

Example split_dots : JS.split "." "a.tar.gz" = ["a"; "tar"; "gz"].
Proof. reflexivity. Qed.

Example split_nodot : JS.split "." "Makefile" = ["Makefile"].
Proof. reflexivity. Qed.

Example join_dots : JS.join "." ["a"; "tar"] = "a.tar".
Proof. reflexivity. Qed.

Lemma lower_upper_ascii (c : ascii) :
  JS.lower_ascii (JS.upper_ascii c) = JS.lower_ascii c.
Proof. destruct c as [[] [] [] [] [] [] [] []]; reflexivity. Qed.

Lemma toLowerCase_toUpperCase (s : string) :
  JS.toLowerCase (JS.toUpperCase s) = JS.toLowerCase s.
Proof.
  unfold JS.toLowerCase, JS.toUpperCase.
  induction s as [|c s IH]; simpl; [reflexivity|].
  now rewrite lower_upper_ascii, IH.
Qed.

(** ** The effect monad *)

Section EffFacts.

Context {host : Host}.

Lemma bind_ok {S A B} (m : Eff S A) (k : A -> Eff S B) s a :
  result (m s) = inr a ->
  bind m k s = mkOutcome (final (k a (final (m s))))
                         (trace (m s) ++ trace (k a (final (m s))))
                         (result (k a (final (m s)))).
Proof. intros H. unfold bind. now rewrite H. Qed.

Lemma bind_throws {S A B} (m : Eff S A) (k : A -> Eff S B) s e :
  result (m s) = inl e ->
  bind m k s = mkOutcome (final (m s)) (trace (m s)) (inl e).
Proof. intros H. unfold bind. now rewrite H. Qed.

Lemma bind_inr {S A B} (m : Eff S A) (k : A -> Eff S B) s s' t a :
  m s = mkOutcome s' t (inr a) ->
  bind m k s = mkOutcome (final (k a s')) (t ++ trace (k a s')) (result (k a s')).
Proof. intros H. unfold bind. now rewrite H. Qed.

Lemma bind_inl {S A B} (m : Eff S A) (k : A -> Eff S B) s s' t e :
  m s = mkOutcome s' t (inl e) ->
  bind m k s = mkOutcome s' t (inl e).
Proof. intros H. unfold bind. now rewrite H. Qed.

Lemma for_of_nil {S A} (body : A -> Eff S unit) :
  for_of [] body = ret tt.
Proof. reflexivity. Qed.

Lemma for_of_cons {S A} (x : A) (l : list A) (body : A -> Eff S unit) :
  for_of (x :: l) body = bind (body x) (fun _ => for_of l body).
Proof. reflexivity. Qed.

(** A [forEach] whose body only tests and throws: it throws exactly when
    some element passes the test, and touches nothing. *)
Lemma for_of_guard {S A} (test : A -> bool) (e : Throwable) (l : list A) (s : S) :
  for_of l (fun x => if test x then throw e else ret tt) s
  = mkOutcome s [] (if existsb test l then inl e else inr tt).
Proof.
  induction l as [|x l IH]; [reflexivity|].
  rewrite for_of_cons. simpl existsb.
  unfold bind. destruct (test x); simpl; [reflexivity|].
  rewrite IH. reflexivity.
Qed.

End EffFacts.

(** ** Registration *)

Section RegistrationFacts.

Context {host : Host}.

(** A binding method scans with [test] and pushes [r]. *)
Lemma scan_then_push (test : Route -> bool) (p : string) (r : Route) (s : ServerShell) :
  bind this_routes (fun rs =>
    bind (for_of rs (fun route =>
            if test route then throw (RouteAlreadyBoundError p) else ret tt))
         (fun _ => routes_push r)) s
  = if existsb test (routes s)
    then mkOutcome s [] (inl (RouteAlreadyBoundError p))
    else mkOutcome (with_route s r) [] (inr tt).
Proof.
  rewrite (bind_inr _ _ s s [] (routes s)) by reflexivity.
  destruct (existsb test (routes s)) eqn:Hex.
  - rewrite (bind_inl _ _ s s [] (RouteAlreadyBoundError p))
      by (now rewrite for_of_guard, Hex).
    reflexivity.
  - rewrite (bind_inr _ _ s s [] tt) by (now rewrite for_of_guard, Hex).
    reflexivity.
Qed.

Lemma existsb_ext_eq {A} (f g : A -> bool) (l : list A) :
  (forall x, f x = g x) -> existsb f l = existsb g l.
Proof. intros H. induction l; simpl; [reflexivity|]. now rewrite H, IHl. Qed.

(** Each of the six methods tests exactly [conflicts]. *)
Lemma register_run (v : Verb) (p : string) (l : Listener) (s : ServerShell) :
  register v p l s
  = if existsb (conflicts v p) (routes s)
    then mkOutcome s [] (inl (RouteAlreadyBoundError p))
    else mkOutcome (with_route s (new_Route p (verb_name v) l)) [] (inr tt).
Proof.
  destruct v; simpl register;
    unfold get, post, options, put, delete, any;
    rewrite scan_then_push;
    match goal with
    | |- (if existsb ?f _ then _ else _) = (if existsb ?g _ then _ else _) =>
        rewrite (existsb_ext_eq f g); [reflexivity|]
    end;
    intros r; unfold conflicts; simpl verb_name;
    destruct (String.eqb (path r) p); simpl; try reflexivity;
    try (now rewrite orb_false_r).
  now rewrite orb_true_r.
Qed.

End RegistrationFacts.

(** ** The dispatcher *)

Section DispatchFacts.

Context {host : Host}.

Lemma await_callback_run (r : Route) req info w :
  await_callback r req info w
  = mkOutcome (fst (callback r req info w)) [Call_callback r req info]
              (snd (callback r req info w)).
Proof.
  unfold await_callback, bind, emit, run_task. simpl.
  destruct (callback r req info w) as [w' [e|rv]]; reflexivity.
Qed.

(** The two tests of the loop body together are [matches]. *)
Lemma loop_test (r : Route) (p m : string) :
  (if Route_equals r p m then true
   else String.eqb (path r) p && String.eqb (route_method r) "ANY")
  = matches p m r.
Proof.
  unfold Route_equals, matches.
  destruct (String.eqb (path r) p), (String.eqb (route_method r) m); reflexivity.
Qed.

Lemma route_loop_cons (r : Route) rs p m req info rv :
  route_loop (r :: rs) p m req info rv
  = bind (if matches p m r then await_callback r req info else ret rv)
         (fun rv' => route_loop rs p m req info rv').
Proof.
  simpl. rewrite <- loop_test.
  destruct (Route_equals r p m); [reflexivity|].
  destruct (String.eqb (path r) p && String.eqb (route_method r) "ANY"); reflexivity.
Qed.

Lemma route_loop_skip (r : Route) rs p m req info rv w :
  matches p m r = false ->
  route_loop (r :: rs) p m req info rv w = route_loop rs p m req info rv w.
Proof.
  intros H. rewrite route_loop_cons, H. unfold bind. simpl.
  destruct (route_loop rs p m req info rv w); reflexivity.
Qed.

(** No binding matches: nothing is called and [returnvalue] is kept. *)
Lemma route_loop_no_match rs p m req info rv w :
  existsb (matches p m) rs = false ->
  route_loop rs p m req info rv w = mkOutcome w [] (inr rv).
Proof.
  induction rs as [|r rs IH]; intros H; [reflexivity|].
  simpl in H. apply orb_false_elim in H as [Hr Hrs].
  rewrite route_loop_skip by exact Hr. now apply IH.
Qed.

(** One binding matches: the loop is that one call. *)
Lemma route_loop_single pre r post p m req info rv w :
  existsb (matches p m) pre = false ->
  matches p m r = true ->
  existsb (matches p m) post = false ->
  route_loop (pre ++ r :: post) p m req info rv w = await_callback r req info w.
Proof.
  intros Hpre Hr Hpost.
  induction pre as [|x pre IH].
  - simpl app. rewrite route_loop_cons, Hr.
    destruct (callback r req info w) as [w' [e|rv']] eqn:Hc.
    + rewrite (bind_inl _ _ w w' [Call_callback r req info] e)
        by (now rewrite await_callback_run, Hc).
      now rewrite await_callback_run, Hc.
    + rewrite (bind_inr _ _ w w' [Call_callback r req info] rv')
        by (now rewrite await_callback_run, Hc).
      rewrite route_loop_no_match by exact Hpost.
      now rewrite await_callback_run, Hc.
  - simpl in Hpre. apply orb_false_elim in Hpre as [Hx Hpre].
    simpl app. rewrite route_loop_skip by exact Hx. now apply IH.
Qed.

(** The handler: the hook, then the loop in the world the hook left, then
    the response; the value the hook returned appears nowhere. *)
Lemma listen_handler_run (s : ServerShell) req info w :
  listen_handler s req info w
  = match snd (middleware s req info w) with
    | inl e => mkOutcome (fst (middleware s req info w)) [Call_middleware req info] (inl e)
    | inr _ =>
        let o := route_loop (routes s) (URL_pathname (url req))
                   (JS.toUpperCase (method req)) req info
                   (cannot (JS.toUpperCase (method req)) (URL_pathname (url req)))
                   (fst (middleware s req info w)) in
        mkOutcome (final o) (Call_middleware req info :: trace o) (respond (result o))
    end.
Proof.
  assert (Hmw : call_middleware (middleware s) req info w
                = mkOutcome (fst (middleware s req info w))
                            [Call_middleware req info]
                            (snd (middleware s req info w))).
  { unfold call_middleware, bind, emit, run_task. simpl.
    destruct (middleware s req info w) as [w1 [e|v]]; reflexivity. }
  unfold listen_handler.
  destruct (snd (middleware s req info w)) as [e|v] eqn:Hres.
  - now rewrite (bind_inl _ _ _ _ _ _ Hmw).
  - rewrite (bind_inr _ _ _ _ _ _ Hmw). cbv zeta.
    unfold bind, ret.
    destruct (route_loop (routes s) (URL_pathname (url req))
                (JS.toUpperCase (method req)) req info
                (cannot (JS.toUpperCase (method req)) (URL_pathname (url req)))
                (fst (middleware s req info w))) as [w2 t [e|rv]]; simpl;
      try rewrite app_nil_r; reflexivity.
Qed.

(** Every event of the loop is a callback call. *)
Lemma route_loop_trace rs p m req info rv w :
  middleware_calls (trace (route_loop rs p m req info rv w)) = 0.
Proof.
  revert rv w. induction rs as [|r rs IH]; intros rv w; [reflexivity|].
  rewrite route_loop_cons. unfold bind.
  destruct (matches p m r).
  - rewrite await_callback_run. simpl.
    destruct (snd (callback r req info w)); simpl; [reflexivity|]. apply IH.
  - simpl. apply IH.
Qed.

End DispatchFacts.

(** ** Registration: conflict or push *)

Section RegistrationClaims.

Context {host : Host}.

(** C2.  Whatever the table, a binding method called where an existing
    binding conflicts (same path; and same method, or the existing binding
    is ANY, or the new one is ANY) throws [RouteAlreadyBoundError] at once
    and leaves the shell exactly as it was, so every request resolves as
    before; called where nothing conflicts it returns normally and has
    appended the new binding to the table.  Nothing else is touched. *)
Theorem register_duplicate_or_push
    (v : Verb) (p : string) (l : Listener) (s : ServerShell) :
  let o := register v p l s in
  trace o = []
  /\ if existsb (conflicts v p) (routes s)
     then result o = inl (RouteAlreadyBoundError p)
          /\ final o = s
          /\ (forall pathname m,
                spec_resolve (routes (final o)) pathname m
                = spec_resolve (routes s) pathname m)
     else result o = inr tt
          /\ final o = with_route s (new_Route p (verb_name v) l).
Proof.
  cbv zeta. rewrite register_run.
  destruct (existsb (conflicts v p) (routes s)); simpl; auto.
Qed.

End RegistrationClaims.

(** ** Dispatch: the hook and the fallback *)

Section DispatchClaims.

Context {host : Host}.

Lemma find_none_existsb {A} (f : A -> bool) (l : list A) :
  find f l = None -> existsb f l = false.
Proof.
  induction l as [|x l IH]; simpl; [reflexivity|].
  destruct (f x); [discriminate|]. exact IH.
Qed.

(** C3.  When no binding matches the request's path and upper-cased
    method, and the hook has returned, the handler answers with status
    404, the header [Content-Type: text/html] and the body
    [Cannot <method in lower case> <path>]; no callback was called. *)
Theorem not_found_response (s : ServerShell) (req : Request) (info : Info) (w : World) :
  spec_resolve (routes s) (URL_pathname (url req)) (JS.toUpperCase (method req)) = None ->
  (exists v, snd (middleware s req info w) = inr v) ->
  let o := listen_handler s req info w in
  let resp :=
    new_Response
      (Some (BodyText ("Cannot " ++ JS.toLowerCase (method req) ++ " "
                       ++ URL_pathname (url req))))
      (Some {| headers := Some [("Content-Type", "text/html")];
               status := Some 404%Z |}) in
  result o = inr resp
  /\ Response_status resp = 404%Z
  /\ Response_header "Content-Type" resp = Some "text/html"
  /\ callbacks_called (trace o) = [].
Proof.
  intros Hnone [v Hv]. cbv zeta.
  rewrite listen_handler_run, Hv. cbv zeta.
  rewrite route_loop_no_match by (apply find_none_existsb; exact Hnone).
  simpl. unfold cannot. rewrite toLowerCase_toUpperCase. auto.
Qed.

(** C5.  In every dispatch the hook is run, once, before anything else:
    the handler's outcome is that of running the hook on the incoming
    world and then, if it returned, the loop over the table in the world
    the hook left, whether or not a binding matches; if no binding
    matches, the world after the dispatch is exactly the one the hook
    left.  The trace starts with the hook's call and holds no other.  Its
    return value is ignored: two shells with the same table whose hooks
    leave the same world and return different values handle the request
    alike.  And [use] replaces: after two [use] calls the shell is the one
    the second call alone would have made, so only the second hook
    runs. *)
Theorem hook_once_first_ignored_replaced :
  (forall (s : ServerShell) req info w,
      exists t, trace (listen_handler s req info w) = Call_middleware req info :: t
                /\ middleware_calls t = 0
                /\ middleware_calls (trace (listen_handler s req info w)) = 1)
  /\ (forall (s s' : ServerShell) req info w w1 v v',
        routes s = routes s' ->
        middleware s req info w = (w1, inr v) ->
        middleware s' req info w = (w1, inr v') ->
        listen_handler s req info w = listen_handler s' req info w)
  /\ (forall (s : ServerShell) (m1 m2 : Middleware),
        final (use m2 (final (use m1 s))) = final (use m2 s)
        /\ middleware (final (use m2 s)) = m2
        /\ routes (final (use m2 s)) = routes s
        /\ result (use m2 s) = inr tt)
  /\ (forall (s : ServerShell) req info w,
        listen_handler s req info w
        = match snd (middleware s req info w) with
          | inl e =>
              mkOutcome (fst (middleware s req info w))
                        [Call_middleware req info] (inl e)
          | inr _ =>
              let o := route_loop (routes s) (URL_pathname (url req))
                         (JS.toUpperCase (method req)) req info
                         (cannot (JS.toUpperCase (method req))
                                 (URL_pathname (url req)))
                         (fst (middleware s req info w)) in
              mkOutcome (final o) (Call_middleware req info :: trace o)
                        (respond (result o))
          end)
  /\ (forall (s : ServerShell) (m1 m2 : Middleware) req info w w2 v,
        m2 req info w = (w2, inr v) ->
        existsb (matches (URL_pathname (url req)) (JS.toUpperCase (method req)))
                (routes s) = false ->
        final (listen_handler (final (use m2 (final (use m1 s)))) req info w) = w2).
Proof.
  split; [|split; [|split; [|split]]].
  - intros s req info w. rewrite listen_handler_run.
    destruct (snd (middleware s req info w)) as [e|v].
    + exists []. simpl. auto.
    + cbv zeta. eexists. split; [reflexivity|]. simpl trace.
      unfold middleware_calls at 2. simpl filter. simpl length.
      fold (middleware_calls
              (trace (route_loop (routes s) (URL_pathname (url req))
                        (JS.toUpperCase (method req)) req info
                        (cannot (JS.toUpperCase (method req)) (URL_pathname (url req)))
                        (fst (middleware s req info w))))).
      rewrite route_loop_trace. auto.
  - intros s s' req info w w1 v v' Hr Hm Hm'.
    rewrite !listen_handler_run, Hm, Hm', Hr. reflexivity.
  - intros s m1 m2. repeat split.
  - intros s req info w. apply listen_handler_run.
  - intros s m1 m2 req info w w2 v Hm2 Hnone.
    rewrite listen_handler_run.
    change (middleware (final (use m2 (final (use m1 s))))) with m2.
    change (routes (final (use m2 (final (use m1 s))))) with (routes s).
    rewrite Hm2. cbv zeta. cbn [fst snd].
    now rewrite route_loop_no_match.
Qed.

End DispatchClaims.

(** ** The uniqueness invariant *)

Section InvariantFacts.

Context {host : Host}.

Lemma compatible_sym (a b : Route) : compatible a b = compatible b a.
Proof.
  unfold compatible.
  rewrite (String.eqb_sym (path a) (path b)).
  rewrite (String.eqb_sym (route_method a) (route_method b)).
  destruct (String.eqb (path b) (path a)),
           (String.eqb (route_method b) (route_method a)),
           (String.eqb (route_method a) "ANY"),
           (String.eqb (route_method b) "ANY"); reflexivity.
Qed.

Lemma table_ok_snoc (rs : list Route) (r : Route) :
  table_ok (rs ++ [r]) = table_ok rs && forallb (fun x => compatible x r) rs.
Proof.
  induction rs as [|a rs IH]; [reflexivity|].
  simpl. rewrite forallb_app, IH. simpl.
  rewrite andb_true_r.
  destruct (forallb (compatible a) rs), (compatible a r), (table_ok rs); reflexivity.
Qed.

(** The test of a binding method is incompatibility with the new binding. *)
Lemma conflicts_compatible (v : Verb) (p : string) (l : Listener) (x : Route) :
  conflicts v p x = negb (compatible x (new_Route p (verb_name v) l)).
Proof. unfold conflicts, compatible. simpl. now rewrite negb_involutive. Qed.

Lemma no_conflict_all_compatible (v : Verb) (p : string) (l : Listener) rs :
  existsb (conflicts v p) rs = false ->
  forallb (fun x => compatible x (new_Route p (verb_name v) l)) rs = true.
Proof.
  induction rs as [|x rs IH]; simpl; [reflexivity|].
  intros H. apply orb_false_elim in H as [Hx Hrs].
  rewrite (conflicts_compatible v p l) in Hx.
  apply negb_false_iff in Hx. rewrite Hx. now apply IH.
Qed.

Lemma table_ok_push (v : Verb) (p : string) (l : Listener) (s : ServerShell) :
  table_ok (routes s) = true ->
  existsb (conflicts v p) (routes s) = false ->
  table_ok (routes (with_route s (new_Route p (verb_name v) l))) = true.
Proof.
  intros Hok Hno. simpl. rewrite table_ok_snoc, Hok.
  now rewrite (no_conflict_all_compatible v p l).
Qed.

(** A binding compatible with all of [rs] leaves no room in [rs] for its
    own path and method, nor for ANY on its path, nor, being ANY, for any
    binding on its path. *)
Lemma compatible_excludes (r : Route) (rs : list Route) (p m : string) :
  forallb (compatible r) rs = true ->
  path r = p ->
  route_method r = m \/ m = "ANY" \/ route_method r = "ANY" ->
  bindings_for p m rs = [].
Proof.
  intros Hall Hp Hm.
  induction rs as [|x rs IH]; [reflexivity|].
  simpl in Hall. apply andb_true_iff in Hall as [Hx Hrs].
  simpl. rewrite (IH Hrs).
  destruct (String.eqb (path x) p && String.eqb (route_method x) m) eqn:E; [|reflexivity].
  exfalso. apply andb_true_iff in E as [E1 E2].
  apply String.eqb_eq in E1, E2.
  unfold compatible in Hx. apply negb_true_iff in Hx.
  rewrite Hp, E1, String.eqb_refl in Hx. simpl in Hx.
  apply orb_false_elim in Hx as [Hx Hx3].
  apply orb_false_elim in Hx as [Hx1 Hx2].
  destruct Hm as [Hm | [Hm | Hm]].
  - rewrite Hm, E2, String.eqb_refl in Hx1. discriminate.
  - rewrite E2, Hm in Hx3. simpl in Hx3. discriminate.
  - rewrite Hm in Hx2. simpl in Hx2. discriminate.
Qed.

Lemma bindings_for_cons (p m : string) (r : Route) (rs : list Route) :
  bindings_for p m (r :: rs)
  = if String.eqb (path r) p && String.eqb (route_method r) m
    then r :: bindings_for p m rs
    else bindings_for p m rs.
Proof. reflexivity. Qed.

(** The check implies the invariant in the words of the specification. *)
Lemma table_ok_uniqueness (rs : list Route) :
  table_ok rs = true -> uniqueness rs.
Proof.
  induction rs as [|r rs IH]; intros Hok p.
  - left. split; [reflexivity|]. intros m. simpl. lia.
  - simpl in Hok. apply andb_true_iff in Hok as [Hall Hok].
    specialize (IH Hok p).
    destruct (String.eqb_spec (path r) p) as [Hp|Hp].
    + destruct (String.eqb_spec (route_method r) "ANY") as [Hany|Hany].
      * right. split.
        -- rewrite bindings_for_cons, Hp, Hany, !String.eqb_refl. simpl.
           rewrite (compatible_excludes r rs p "ANY" Hall Hp); auto.
        -- intros m Hm. rewrite bindings_for_cons, Hany.
           replace (String.eqb "ANY" m) with false
             by (symmetry; apply String.eqb_neq; congruence).
           rewrite andb_false_r.
           apply (compatible_excludes r rs p m Hall Hp); auto.
      * left. split.
        -- rewrite bindings_for_cons.
           replace (String.eqb (route_method r) "ANY") with false
             by (symmetry; now apply String.eqb_neq).
           rewrite andb_false_r.
           apply (compatible_excludes r rs p "ANY" Hall Hp); auto.
        -- intros m. rewrite bindings_for_cons, Hp, String.eqb_refl. simpl.
           destruct (String.eqb_spec (route_method r) m) as [Hm|Hm].
           ++ rewrite (compatible_excludes r rs p m Hall Hp); auto.
           ++ destruct IH as [[_ IH]|[IH1 IH2]]; [apply IH|].
              rewrite (compatible_excludes r rs p "ANY" Hall Hp) in IH1 by auto.
              discriminate.
    + assert (Hsame : forall m, bindings_for p m (r :: rs) = bindings_for p m rs).
      { intros m. rewrite bindings_for_cons.
        replace (String.eqb (path r) p) with false
          by (symmetry; now apply String.eqb_neq).
        reflexivity. }
      destruct IH as [[IH1 IH2]|[IH1 IH2]].
      * left. split; [now rewrite Hsame|]. intros m. rewrite Hsame. apply IH2.
      * right. split; [now rewrite Hsame|]. intros m Hm. rewrite Hsame. now apply IH2.
Qed.

End InvariantFacts.

(** ** At most one binding matches in a table with the invariant *)

Section ResolutionFacts.

Context {host : Host}.

Lemma matches_spec (p m : string) (r : Route) :
  matches p m r = true
  <-> path r = p /\ (route_method r = m \/ route_method r = "ANY").
Proof.
  unfold matches. rewrite andb_true_iff, orb_true_iff, !String.eqb_eq. tauto.
Qed.

Lemma filter_length_two {A} (f : A -> bool) (l1 l2 l3 : list A) (a b : A) :
  f a = true -> f b = true ->
  2 <= length (filter f (l1 ++ a :: l2 ++ b :: l3)%list).
Proof.
  intros Ha Hb. rewrite filter_app, length_app. simpl. rewrite Ha. simpl.
  rewrite filter_app, length_app. simpl. rewrite Hb. simpl. lia.
Qed.

Lemma filter_length_one {A} (f : A -> bool) (l1 l2 : list A) (a : A) :
  f a = true -> 1 <= length (filter f (l1 ++ a :: l2)%list).
Proof.
  intros Ha. rewrite filter_app, length_app. simpl. rewrite Ha. simpl. lia.
Qed.

Lemma existsb_false_filter {A} (f : A -> bool) (l : list A) :
  existsb f l = false -> filter f l = [].
Proof.
  induction l as [|x l IH]; simpl; [reflexivity|].
  intros H. apply orb_false_elim in H as [Hx Hl]. rewrite Hx. now apply IH.
Qed.

Lemma find_split {A} (f : A -> bool) (l : list A) (r : A) :
  find f l = Some r ->
  exists pre post, l = (pre ++ r :: post)%list /\ existsb f pre = false /\ f r = true.
Proof.
  induction l as [|x l IH]; simpl; [discriminate|].
  destruct (f x) eqn:Hx.
  - intros [= ->]. now exists [], l.
  - intros H. destruct (IH H) as (pre & post & -> & Hpre & Hr).
    exists (x :: pre), post. simpl. now rewrite Hx.
Qed.

(** Under the invariant nothing after a match matches. *)
Lemma uniqueness_no_second_match (pre post : list Route) (r : Route) (p m : string) :
  uniqueness (pre ++ r :: post)%list ->
  matches p m r = true ->
  existsb (matches p m) post = false.
Proof.
  intros Huniq Hr.
  destruct (existsb (matches p m) post) eqn:Hex; [exfalso|reflexivity].
  apply existsb_exists in Hex as (x & Hin & Hx).
  apply in_split in Hin as (l2 & l3 & ->).
  apply matches_spec in Hr as [Hrp Hrm], Hx as [Hxp Hxm].
  set (sel := fun m' (y : Route) =>
                String.eqb (path y) p && String.eqb (route_method y) m').
  assert (Hsel : forall m' (y : Route),
             path y = p -> route_method y = m' -> sel m' y = true).
  { intros m' y <- <-. unfold sel. now rewrite !String.eqb_refl. }
  assert (Htwo : forall m', route_method r = m' -> route_method x = m' ->
             2 <= length (bindings_for p m' (pre ++ r :: l2 ++ x :: l3)%list)).
  { intros m' H1 H2. apply (filter_length_two (sel m')); now apply Hsel. }
  assert (Hr1 : forall m', route_method r = m' ->
             1 <= length (bindings_for p m' (pre ++ r :: l2 ++ x :: l3)%list)).
  { intros m' H1. apply (filter_length_one (sel m')). now apply Hsel. }
  assert (Hx1 : forall m', route_method x = m' ->
             1 <= length (bindings_for p m' (pre ++ r :: l2 ++ x :: l3)%list)).
  { intros m' H1.
    replace (pre ++ r :: l2 ++ x :: l3)%list with ((pre ++ r :: l2) ++ x :: l3)%list
      by (now rewrite <- app_assoc).
    apply (filter_length_one (sel m')). now apply Hsel. }
  destruct (Huniq p) as [[Hany Hone]|[Hany Hnone]].
  - destruct Hrm as [Hrm|Hrm]; [|apply Hr1 in Hrm; rewrite Hany in Hrm; simpl in Hrm; lia].
    destruct Hxm as [Hxm|Hxm]; [|apply Hx1 in Hxm; rewrite Hany in Hxm; simpl in Hxm; lia].
    specialize (Htwo m Hrm Hxm). specialize (Hone m). lia.
  - destruct (String.eqb_spec m "ANY") as [Hm|Hm].
    + assert (Hr' : route_method r = "ANY") by (destruct Hrm; congruence).
      assert (Hx' : route_method x = "ANY") by (destruct Hxm; congruence).
      specialize (Htwo "ANY" Hr' Hx'). lia.
    + destruct Hrm as [Hrm|Hrm].
      * apply Hr1 in Hrm. rewrite (Hnone m Hm) in Hrm. simpl in Hrm. lia.
      * destruct Hxm as [Hxm|Hxm].
        -- apply Hx1 in Hxm. rewrite (Hnone m Hm) in Hxm. simpl in Hxm. lia.
        -- specialize (Htwo "ANY" Hrm Hxm). lia.
Qed.

(** Under the invariant the matching bindings are the first match alone. *)
Lemma uniqueness_filter (rs : list Route) (p m : string) :
  uniqueness rs ->
  filter (matches p m) rs
  = match spec_resolve rs p m with
    | Some r => [r]
    | None => []
    end.
Proof.
  intros Huniq. unfold spec_resolve.
  destruct (find (matches p m) rs) as [r|] eqn:Hfind.
  - apply find_split in Hfind as (pre & post & -> & Hpre & Hr).
    rewrite filter_app. simpl. rewrite Hr.
    rewrite (existsb_false_filter _ _ Hpre).
    rewrite (existsb_false_filter _ post); [reflexivity|].
    now apply (uniqueness_no_second_match pre post r).
  - apply existsb_false_filter. now apply find_none_existsb.
Qed.

(** The loop calls exactly the matching bindings, in table order. *)
Lemma route_loop_call_each (rs : list Route) p m req info rv w :
  route_loop rs p m req info rv w
  = call_each (filter (matches p m) rs) req info rv w.
Proof.
  revert rv w. induction rs as [|r rs IH]; intros rv w; [reflexivity|].
  simpl filter. destruct (matches p m r) eqn:Hr.
  - rewrite route_loop_cons, Hr. simpl call_each. unfold bind.
    destruct (result (await_callback r req info w)); [reflexivity|].
    now rewrite IH.
  - rewrite route_loop_skip by exact Hr. apply IH.
Qed.

End ResolutionFacts.

(** ** Walking the tree *)

Section StaticFacts.

Context {host : Host}.

(** Induction on a tree, with the hypothesis for every entry of a
    directory. *)
Lemma DirEntry_nested_ind (P : DirEntry -> Prop) :
  (forall name data, P (File name data)) ->
  (forall name entries, Forall P entries -> P (Directory name entries)) ->
  (forall name, P (Symlink name)) ->
  forall entry, P entry.
Proof.
  intros Hfile Hdir Hsym.
  fix IH 1. intros [name data|name entries|name].
  - apply Hfile.
  - apply Hdir. induction entries as [|x entries IHentries]; constructor.
    + apply IH.
    + exact IHentries.
  - apply Hsym.
Qed.

Lemma bind_result_inr {S A B} (m : Eff S A) (k : A -> Eff S B) s b :
  result (bind m k s) = inr b ->
  exists a, result (m s) = inr a /\ result (k a (final (m s))) = inr b.
Proof.
  unfold bind. destruct (result (m s)) as [e|a]; simpl; [discriminate|].
  intros H. now exists a.
Qed.

Lemma bind_preserves {A B} (P : ServerShell -> Prop)
    (m : Eff ServerShell A) (k : A -> Eff ServerShell B) s :
  P (final (m s)) ->
  (forall a s', P s' -> P (final (k a s'))) ->
  P (final (bind m k s)).
Proof.
  intros Hm Hk. unfold bind. destruct (result (m s)); simpl; auto.
Qed.

Lemma for_of_preserves {A} (P : ServerShell -> Prop) (l : list A)
    (body : A -> Eff ServerShell unit) :
  Forall (fun x => forall s, P s -> P (final (body x s))) l ->
  forall s, P s -> P (final (for_of l body s)).
Proof.
  induction 1 as [|x l Hx Hl IH]; intros s Hs; [exact Hs|].
  rewrite for_of_cons. apply bind_preserves; auto.
Qed.

Lemma register_preserves (P : ServerShell -> Prop) v p l s :
  push_closed P -> P s -> P (final (register v p l s)).
Proof.
  intros Hpush Hs. rewrite register_run.
  destruct (existsb (conflicts v p) (routes s)) eqn:E; simpl; auto.
Qed.

Lemma useStatic_entry_file d r name (data : Bytes) :
  useStatic_entry d r (File name data)
  = bind (emit (ReadFileSync (Path.join d name)))
         (fun _ => useStatic_file (Path.join r name) name (TextDecoder_decode data)).
Proof. reflexivity. Qed.

Lemma useStatic_entry_directory d r name (entries : list DirEntry) :
  useStatic_entry d r (Directory name entries)
  = bind (emit (ReadDirSync (Path.join d name)))
         (fun _ => for_of entries
                     (useStatic_entry (Path.join d name) (Path.join r name))).
Proof. reflexivity. Qed.

(** The route and listener of the file arm, then [get]. *)
Lemma useStatic_file_get (pathnameRoute name contents : string) :
  useStatic_file pathnameRoute name contents
  = register GET
      (JS.replaceAll "\" "/"
         (if String.eqb (file_stem name) "index"
             && option_string_eqb (file_extension name) "html"
          then Path.join pathnameRoute ".."
          else pathnameRoute))
      (static_listener contents (file_extension name)).
Proof. reflexivity. Qed.

Lemma useStatic_entry_preserves (P : ServerShell -> Prop) :
  push_closed P ->
  forall entry d r s, P s -> P (final (useStatic_entry d r entry s)).
Proof.
  intros Hpush entry.
  induction entry as [name data|name entries IH|name] using DirEntry_nested_ind;
    intros d r s Hs.
  - rewrite useStatic_entry_file. apply bind_preserves; [exact Hs|].
    intros _ s' Hs'. rewrite useStatic_file_get.
    now apply register_preserves.
  - rewrite useStatic_entry_directory. apply bind_preserves; [exact Hs|].
    intros _ s' Hs'. apply for_of_preserves; [|exact Hs'].
    apply Forall_impl with (2 := IH). intros e He s0 Hs0. now apply He.
  - exact Hs.
Qed.

Lemma useStatic_preserves (P : ServerShell -> Prop) d r entries s :
  push_closed P -> P s -> P (final (useStatic d r entries s)).
Proof.
  intros Hpush Hs. unfold useStatic.
  apply bind_preserves; [exact Hs|]. intros _ s' Hs'.
  apply for_of_preserves; [|exact Hs'].
  apply Forall_forall. intros e _ s0 Hs0. now apply useStatic_entry_preserves.
Qed.

(** Every call but [use] keeps a push-closed property. *)
Lemma run_call_preserves (P : ServerShell -> Prop) (c : Call) s :
  push_closed P -> is_Use c = false -> P s -> P (final (run_call c s)).
Proof.
  intros Hpush Hc Hs. destruct c as [v p l|m|d r es]; cbn [run_call].
  - now apply register_preserves.
  - discriminate.
  - now apply useStatic_preserves.
Qed.

Lemma table_ok_push_closed : push_closed (fun s => table_ok (routes s) = true).
Proof. intros v s p l Hs Hno. now apply table_ok_push. Qed.

Lemma reachable_table_ok (s : ServerShell) :
  reachable s -> table_ok (routes s) = true.
Proof.
  induction 1 as [cfg|s c Hreach IH]; [reflexivity|].
  destruct (is_Use c) eqn:Hc.
  - destruct c; try discriminate. exact IH.
  - now apply (run_call_preserves (fun s => table_ok (routes s) = true)),
      IH; [apply table_ok_push_closed|].
Qed.

End StaticFacts.

(** ** Tables built by calls *)

Section TableClaims.

Context {host : Host}.

Lemma run_calls_reachable (cs : list Call) (s : ServerShell) :
  reachable s -> reachable (run_calls cs s).
Proof.
  revert s. induction cs as [|c cs IH]; intros s Hs; [exact Hs|].
  simpl. apply IH. now constructor.
Qed.

(** C4.  Every shell reached from a fresh one by any sequence of [get],
    [post], [put], [delete], [options], [any], [use] and [useStatic]
    calls, whether they returned or threw, has a table with the
    uniqueness invariant: on each path either no ANY binding and at most
    one binding per method, or exactly one ANY binding and no binding of
    a concrete method. *)
Theorem reachable_uniqueness (s : ServerShell) :
  reachable s -> uniqueness (routes s).
Proof. intros H. apply table_ok_uniqueness. now apply reachable_table_ok. Qed.

(** Once the hook has returned, the handler's outcome is that of calling
    in table order the callbacks of the bindings whose path is equal to
    the request path and whose method is equal to the upper-cased request
    method or is ANY, each in the world the one before left, until one
    throws or the list ends; the payload kept is that of the last one
    called (404 if none).  In a table with the uniqueness invariant at
    most one binding matches. *)
Lemma dispatch_calls_every_match (s : ServerShell) (req : Request) (info : Info)
    (w w1 : World) (v : JSValue) :
  middleware s req info w = (w1, inr v) ->
  let pathname := URL_pathname (url req) in
  let method' := JS.toUpperCase (method req) in
  let o := listen_handler s req info w in
  let o' := call_each (filter (matches pathname method') (routes s)) req info
              (cannot method' pathname) w1 in
  o = mkOutcome (final o') (Call_middleware req info :: trace o') (respond (result o'))
  /\ (forall r, spec_resolve (routes s) pathname method' = Some r ->
        path r = pathname
        /\ (route_method r = method' \/ route_method r = "ANY"))
  /\ (uniqueness (routes s) -> first_match_only s req info w1 o).
Proof.
  intros Hmw. cbv zeta.
  assert (Hrun : listen_handler s req info w
          = mkOutcome
              (final (call_each (filter (matches (URL_pathname (url req))
                                           (JS.toUpperCase (method req))) (routes s))
                        req info
                        (cannot (JS.toUpperCase (method req)) (URL_pathname (url req)))
                        w1))
              (Call_middleware req info
               :: trace (call_each (filter (matches (URL_pathname (url req))
                                              (JS.toUpperCase (method req))) (routes s))
                           req info
                           (cannot (JS.toUpperCase (method req)) (URL_pathname (url req)))
                           w1))
              (respond
                 (result (call_each (filter (matches (URL_pathname (url req))
                                               (JS.toUpperCase (method req))) (routes s))
                            req info
                            (cannot (JS.toUpperCase (method req)) (URL_pathname (url req)))
                            w1)))).
  { rewrite listen_handler_run, Hmw. cbv zeta. simpl fst. simpl snd.
    now rewrite route_loop_call_each. }
  split; [exact Hrun|]. split.
  - intros r Hr. apply find_some in Hr as [_ Hr]. now apply matches_spec.
  - intros Huniq. rewrite Hrun. unfold first_match_only. cbv zeta.
    rewrite (uniqueness_filter _ _ _ Huniq).
    destruct (spec_resolve (routes s) (URL_pathname (url req))
                (JS.toUpperCase (method req))) as [r|].
    + simpl call_each. unfold bind. rewrite await_callback_run. simpl.
      destruct (callback r req info w1) as [w2 [e|rv]]; simpl; auto.
    + simpl. auto.
Qed.

(** C1.  On every shell built by setup calls, for every request, once
    the hook has returned: dispatch looks through the bindings in
    insertion order, and the binding whose callback is called is the
    first one whose path is equal to the request path as a string (no
    slash or case is adjusted) and whose method is equal to the
    upper-cased request method or is ANY; that callback runs in the world
    the hook left, its payload (or its throw) is the outcome, and no other
    callback is called.  When no binding matches, none is called and the
    404 payload is the outcome. *)
Theorem dispatch_first_match (s : ServerShell) (req : Request) (info : Info)
    (w w1 : World) (v : JSValue) :
  reachable s ->
  middleware s req info w = (w1, inr v) ->
  let pathname := URL_pathname (url req) in
  let method' := JS.toUpperCase (method req) in
  let o := listen_handler s req info w in
  first_match_only s req info w1 o
  /\ trace o
     = Call_middleware req info
       :: match spec_resolve (routes s) pathname method' with
          | Some r => [Call_callback r req info]
          | None => []
          end
  /\ (forall r,
        spec_resolve (routes s) pathname method' = Some r ->
        path r = pathname
        /\ (route_method r = method' \/ route_method r = "ANY")
        /\ exists pre post,
             routes s = (pre ++ r :: post)%list
             /\ (forall y, In y pre ->
                   ~ (path y = pathname
                      /\ (route_method y = method' \/ route_method y = "ANY")))
             /\ (forall y, In y post ->
                   ~ (path y = pathname
                      /\ (route_method y = method' \/ route_method y = "ANY")))).
Proof.
  intros Hreach Hmw. cbv zeta.
  assert (Huniq : uniqueness (routes s))
    by (apply table_ok_uniqueness; now apply reachable_table_ok).
  destruct (dispatch_calls_every_match s req info w w1 v Hmw) as (Hrun & _ & Hfirst).
  split; [now apply Hfirst|]. split.
  - rewrite Hrun. cbn [trace]. f_equal.
    rewrite (uniqueness_filter _ _ _ Huniq).
    destruct (spec_resolve (routes s) (URL_pathname (url req))
                (JS.toUpperCase (method req))) as [r|]; [|reflexivity].
    cbn [call_each]. unfold bind. rewrite await_callback_run. cbn [result final trace].
    destruct (snd (callback r req info w1)); reflexivity.
  - intros r Hr.
    pose proof Hr as Hsplit.
    apply find_split in Hsplit as (pre & post & Hrs & Hpre & Hmatch).
    pose proof Hmatch as Hm. apply matches_spec in Hm as [Hp Hv].
    split; [exact Hp|]. split; [exact Hv|].
    exists pre, post. split; [exact Hrs|].
    assert (Hpost : existsb (matches (URL_pathname (url req))
                               (JS.toUpperCase (method req))) post = false).
    { apply (uniqueness_no_second_match pre post r); [|exact Hmatch].
      now rewrite <- Hrs. }
    split; intros y Hy Hyes; apply matches_spec in Hyes.
    + assert (existsb (matches (URL_pathname (url req))
                         (JS.toUpperCase (method req))) pre = true)
        by (apply existsb_exists; now exists y).
      congruence.
    + assert (existsb (matches (URL_pathname (url req))
                         (JS.toUpperCase (method req))) post = true)
        by (apply existsb_exists; now exists y).
      congruence.
Qed.

Lemma run_calls_preserves (P : ServerShell -> Prop) (cs : list Call) :
  push_closed P ->
  forallb (fun c => negb (is_Use c)) cs = true ->
  forall s, P s -> P (run_calls cs s).
Proof.
  intros Hpush. induction cs as [|c cs IH]; intros Hcs s Hs; [exact Hs|].
  simpl in Hcs. apply andb_true_iff in Hcs as [Hc Hcs].
  simpl. apply IH; [exact Hcs|].
  apply run_call_preserves; auto. now apply negb_true_iff.
Qed.

(** C10.  On a shell built without any [use] call the hook is the
    constructor's [() => {}]: it returns [undefined], leaves the world as
    it is and never throws, so the handler's outcome is that of the loop
    over the table, run in the unchanged world. *)
Theorem default_hook_is_noop (config' : option ServeOptions) (cs : list Call)
    (req : Request) (info : Info) (w : World) :
  forallb (fun c => negb (is_Use c)) cs = true ->
  let s := run_calls cs (ServerShell_new config') in
  let o := route_loop (routes s) (URL_pathname (url req))
             (JS.toUpperCase (method req)) req info
             (cannot (JS.toUpperCase (method req)) (URL_pathname (url req))) w in
  middleware s req info w = (w, inr undefined)
  /\ listen_handler s req info w
     = mkOutcome (final o) (Call_middleware req info :: trace o) (respond (result o)).
Proof.
  intros Hcs. cbv zeta.
  assert (Hmw : middleware (run_calls cs (ServerShell_new config'))
                = middleware (ServerShell_new config')).
  { apply (run_calls_preserves
             (fun s => middleware s = middleware (ServerShell_new config')));
      [|exact Hcs|reflexivity].
    intros v s p l Hs _. exact Hs. }
  split.
  - now rewrite Hmw.
  - rewrite listen_handler_run, Hmw. reflexivity.
Qed.

End TableClaims.

(** ** The MIME table *)

Section MimeClaims.

Context {host : Host}.

(** The [switch] is a lookup in its table of labels. *)
Lemma MIME_switch_table (ext : string) :
  MIME_switch ext = assoc ext MIME_table.
Proof.
  unfold MIME_switch, MIME_table. cbn [assoc].
  repeat match goal with
         | |- context [String.eqb ?k ext] => rewrite (String.eqb_sym k ext)
         end.
  repeat match goal with
         | |- context [String.eqb ext ?k] =>
             destruct (String.eqb ext k); cbn [orb]; [reflexivity|]
         end.
  reflexivity.
Qed.

Lemma assoc_not_in (k : string) (kvs : list (string * string)) :
  ~ In k (map fst kvs) -> assoc k kvs = None.
Proof.
  induction kvs as [|[k' v] kvs IH]; simpl; [reflexivity|].
  intros H. destruct (String.eqb_spec k' k) as [->|Hne]; [tauto|].
  apply IH. tauto.
Qed.

Lemma MIMEFromExt_content_type (ext : option string) (w : World) :
  snd (MIMEFromExt ext w) = content_type_of ext.
Proof.
  unfold MIMEFromExt, content_type_of.
  destruct ext as [e|]; [|reflexivity].
  destruct (MIME_switch e); reflexivity.
Qed.

(** C8.  [MIMEFromExt] is a lookup by exact string in the table of its
    [case] labels.  Each extension the specification lists gets the type
    stated, the world untouched; an extension that is no label of the
    table gets [text/plain], with one line on the console and nothing
    thrown; letter case counts, so [HTML] and [Png] are unknown; and the
    type returned depends on the extension alone. *)
Theorem MIMEFromExt_lookup :
  (forall ext w,
      MIMEFromExt (Some ext) w
      = match assoc ext MIME_table with
        | Some mime => (w, mime)
        | None => (console_log (unknown_extension_notice (Some ext)) w, "text/plain")
        end)
  /\ map (fun ext => content_type_of (Some ext))
         [ "html"; "htm"; "css"; "js"; "mjs"; "json"; "png"; "jpg"; "jpeg";
           "gif"; "svg"; "ico"; "mp3"; "oga"; "mp4"; "mpeg"; "ogv";
           "zip"; "7z"; "rar"; "tar"; "gz"; "otf"; "ttf"; "pdf"; "sh"; "php" ]
     = [ "text/html"; "text/html"; "text/css"; "text/javascript";
         "text/javascript"; "application/json"; "image/png"; "image/jpeg";
         "image/jpeg"; "image/gif"; "image/svg+xml"; "image/vnd.microsoft.icon";
         "audio/mpeg"; "audio/ogg"; "video/mp4"; "video/mpeg"; "video/ogg";
         "application/zip"; "application/x-7z-compressed"; "application/vnd.rar";
         "application/x-tar"; "application/gzip"; "font/otf"; "font/ttf";
         "application/pdf"; "application/x-sh"; "application/x-httpd-php" ]
  /\ (forall ext w,
        ~ In ext (map fst MIME_table) ->
        MIMEFromExt (Some ext) w
        = (console_log (unknown_extension_notice (Some ext)) w, "text/plain"))
  /\ content_type_of (Some "HTML") = "text/plain"
  /\ content_type_of (Some "Png") = "text/plain"
  /\ (forall ext w w', snd (MIMEFromExt ext w) = snd (MIMEFromExt ext w')).
Proof.
  assert (H1 : forall ext w,
             MIMEFromExt (Some ext) w
             = match assoc ext MIME_table with
               | Some mime => (w, mime)
               | None => (console_log (unknown_extension_notice (Some ext)) w,
                          "text/plain")
               end).
  { intros ext w. unfold MIMEFromExt. now rewrite MIME_switch_table. }
  repeat split.
  - exact H1.
  - intros ext w Hout. rewrite H1. now rewrite (assoc_not_in _ _ Hout).
  - intros ext w w'. now rewrite !MIMEFromExt_content_type.
Qed.

End MimeClaims.

(** ** Splitting and joining strings *)

Lemma string_app_assoc (a b c : string) : (a ++ b) ++ c = a ++ b ++ c.
Proof. induction a as [|x a IH]; simpl; [reflexivity|]. now rewrite IH. Qed.

Lemma string_app_nil_r (a : string) : a ++ EmptyString = a.
Proof. induction a as [|x a IH]; simpl; [reflexivity|]. now rewrite IH. Qed.

Lemma split_nonempty (sep : ascii) (s : string) : JS.split sep s <> [].
Proof.
  destruct s as [|c s]; simpl; [discriminate|].
  destruct (Ascii.eqb c sep); [discriminate|].
  destruct (JS.split sep s); discriminate.
Qed.

Lemma join_cons_char (sep : string) (c : ascii) (seg : string) (segs : list string) :
  JS.join sep (String c seg :: segs) = String c (JS.join sep (seg :: segs)).
Proof. destruct segs; reflexivity. Qed.

Lemma join_cons (sep x : string) (l : list string) :
  l <> [] -> JS.join sep (x :: l) = x ++ sep ++ JS.join sep l.
Proof. destruct l; [congruence|reflexivity]. Qed.

Lemma join_snoc (sep x : string) (l : list string) :
  l <> [] -> JS.join sep (l ++ [x]) = JS.join sep l ++ sep ++ x.
Proof.
  induction l as [|y l IH]; [congruence|]. intros _.
  destruct l as [|z l].
  - reflexivity.
  - change ((y :: z :: l) ++ [x])%list with (y :: ((z :: l) ++ [x]))%list.
    rewrite join_cons by (destruct l; discriminate).
    rewrite IH by discriminate.
    rewrite (join_cons sep y (z :: l)) by discriminate.
    now rewrite !string_app_assoc.
Qed.

(** Joining what [split] gave restores the string. *)
Lemma join_split (sep : ascii) (s : string) :
  JS.join (String sep EmptyString) (JS.split sep s) = s.
Proof.
  induction s as [|c s IH]; [reflexivity|].
  simpl. destruct (Ascii.eqb_spec c sep) as [->|Hne].
  - rewrite join_cons by apply split_nonempty. now rewrite IH.
  - destruct (JS.split sep s) as [|seg segs] eqn:E.
    + now apply split_nonempty in E.
    + now rewrite join_cons_char, IH.
Qed.

Lemma split_no_sep (sep : ascii) (s : string) :
  has_char sep s = false -> JS.split sep s = [s].
Proof.
  induction s as [|c s IH]; [reflexivity|].
  simpl. intros H. apply orb_false_elim in H as [Hc Hs].
  rewrite Hc, (IH Hs). reflexivity.
Qed.

(** A separator after a piece without one ends the first element. *)
Lemma split_app_first (sep : ascii) (x rest : string) :
  has_char sep x = false ->
  JS.split sep (x ++ String sep rest) = x :: JS.split sep rest.
Proof.
  induction x as [|c x IH]; simpl.
  - intros _. now rewrite Ascii.eqb_refl.
  - intros H. apply orb_false_elim in H as [Hc Hx].
    rewrite Hc, (IH Hx). reflexivity.
Qed.

(** What follows the last separator is the last element. *)
Lemma split_app_last (sep : ascii) (s ext : string) :
  has_char sep ext = false ->
  JS.split sep (s ++ String sep ext) = (JS.split sep s ++ [ext])%list.
Proof.
  intros Hext. induction s as [|c s IH]; simpl.
  - now rewrite Ascii.eqb_refl, split_no_sep.
  - rewrite IH. destruct (Ascii.eqb c sep); [reflexivity|].
    destruct (JS.split sep s) as [|seg segs] eqn:E; [now apply split_nonempty in E|].
    reflexivity.
Qed.

(** Splitting a join of pieces without separators gives the pieces. *)
Lemma split_join (sep : ascii) (l : list string) :
  l <> [] ->
  forallb (fun s => negb (has_char sep s)) l = true ->
  JS.split sep (JS.join (String sep EmptyString) l) = l.
Proof.
  induction l as [|x l IH]; [congruence|]. intros _ H.
  simpl in H. apply andb_true_iff in H as [Hx Hl].
  apply negb_true_iff in Hx.
  destruct l as [|y l].
  - now apply split_no_sep.
  - rewrite join_cons by discriminate.
    change (String sep EmptyString ++ JS.join (String sep EmptyString) (y :: l))
      with (String sep (JS.join (String sep EmptyString) (y :: l))).
    rewrite split_app_first by exact Hx.
    now rewrite IH.
Qed.

Lemma last_elem_snoc (l : list string) (x : string) :
  JS.last_elem (l ++ [x]) = Some x.
Proof.
  unfold JS.last_elem. rewrite length_app. simpl.
  replace (length l + 1 - 1) with (length l) by lia.
  rewrite nth_error_app2 by lia. now rewrite Nat.sub_diag.
Qed.

Lemma last_elem_removelast (l : list string) (x : string) :
  JS.last_elem l = Some x -> l = (removelast l ++ [x])%list.
Proof.
  destruct l as [|y l] using rev_ind; [discriminate|].
  rewrite last_elem_snoc. intros [= ->]. now rewrite removelast_last.
Qed.

(** ** File names *)

(** A name with a dot: the extension is what follows the last dot and the
    stem what precedes it. *)
Lemma split_on_last_dot (stem ext : string) :
  has_char "." ext = false ->
  file_stem (stem ++ "." ++ ext) = stem
  /\ file_extension (stem ++ "." ++ ext) = Some ext.
Proof.
  intros Hext. unfold file_stem, file_extension, JS.pop.
  change ("." ++ ext) with (String "." ext).
  rewrite split_app_last by exact Hext.
  rewrite removelast_last, last_elem_snoc.
  split; [apply (join_split "." stem)|reflexivity].
Qed.

(** A name without a dot: the whole name is taken for the extension. *)
Lemma split_without_dot (name : string) :
  has_char "." name = false ->
  file_stem name = EmptyString /\ file_extension name = Some name.
Proof.
  intros H. unfold file_stem, file_extension. now rewrite split_no_sep.
Qed.

(** The test of the [index.html] arm holds of that name only. *)
Lemma index_html_test (name : string) :
  String.eqb (file_stem name) "index"
  && option_string_eqb (file_extension name) "html"
  = String.eqb name "index.html".
Proof.
  destruct (String.eqb_spec name "index.html") as [->|Hne]; [reflexivity|].
  apply andb_false_iff.
  destruct (String.eqb_spec (file_stem name) "index") as [Hstem|]; [right|now left].
  destruct (file_extension name) as [ext|] eqn:Hext; [|reflexivity].
  simpl. apply String.eqb_neq. intros ->.
  unfold file_stem, file_extension, JS.pop in *.
  apply last_elem_removelast in Hext.
  pose proof (join_split "." name) as Hname.
  rewrite Hext in Hname.
  destruct (removelast (JS.split "." name)) as [|x l] eqn:Hrm.
  - discriminate.
  - rewrite join_snoc in Hname by discriminate.
    rewrite Hstem in Hname. simpl in Hname. congruence.
Qed.

(** ** [join] on clean paths *)

Lemma entry_name_ok_inv (name : string) :
  entry_name_ok name = true ->
  name <> EmptyString /\ has_char "/" name = false
  /\ name <> "." /\ name <> "..".
Proof.
  unfold entry_name_ok. rewrite !andb_true_iff, !negb_true_iff, !String.eqb_neq.
  tauto.
Qed.

Lemma names_without_slash (l : list string) :
  forallb entry_name_ok l = true ->
  forallb (fun s => negb (has_char "/" s)) l = true.
Proof.
  induction l as [|x l IH]; simpl; [reflexivity|].
  intros H. apply andb_true_iff in H as [Hx Hl].
  apply entry_name_ok_inv in Hx as (_ & Hx & _). now rewrite Hx, IH.
Qed.

(** Clean segments go to the output as they are. *)
Lemma normalizeString_clean (allow : bool) (segs rest res : list string) :
  forallb entry_name_ok segs = true ->
  Path.normalizeString allow (segs ++ rest) res
  = Path.normalizeString allow rest (rev segs ++ res).
Proof.
  revert res. induction segs as [|seg segs IH]; intros res H; [reflexivity|].
  simpl in H. apply andb_true_iff in H as [Hseg Hsegs].
  apply entry_name_ok_inv in Hseg as (H1 & _ & H2 & H3).
  simpl. apply String.eqb_neq in H1, H2, H3. rewrite H1, H2, H3. simpl.
  rewrite IH by exact Hsegs. now rewrite <- app_assoc.
Qed.

Lemma ends_with_slash_app (a b : string) :
  b <> EmptyString -> Path.ends_with_slash (a ++ b) = Path.ends_with_slash b.
Proof.
  intros Hb. induction a as [|c a IH]; [reflexivity|].
  simpl. rewrite IH.
  destruct (a ++ b) eqn:E; [|reflexivity].
  destruct a; simpl in E; [congruence|discriminate].
Qed.

Lemma ends_with_slash_none (s : string) :
  has_char "/" s = false -> Path.ends_with_slash s = false.
Proof.
  induction s as [|c s IH]; [reflexivity|].
  simpl. intros H. apply orb_false_elim in H as [Hc Hs].
  destruct s; [exact Hc|]. now apply IH.
Qed.

Lemma join_nonempty (sep x : string) (l : list string) :
  x <> EmptyString -> JS.join sep (l ++ [x]) <> EmptyString.
Proof.
  intros Hx. destruct l as [|y l]; [exact Hx|].
  rewrite join_snoc by discriminate.
  destruct (JS.join sep (y :: l)); simpl; [|discriminate].
  destruct sep; simpl; [exact Hx|discriminate].
Qed.

(** [normalize] of an absolute path given by its segments, the last of
    them not empty. *)
Lemma normalize_absolute (l : list string) (last : string) :
  forallb (fun s => negb (has_char "/" s)) (l ++ [last]) = true ->
  last <> EmptyString ->
  Path.normalize ("/" ++ JS.join "/" (l ++ [last]))
  = "/" ++ JS.join "/" (Path.normalizeString false (l ++ [last]) []).
Proof.
  intros Hslash Hlast.
  assert (Hne : (l ++ [last])%list <> []) by (destruct l; discriminate).
  assert (Hsplit : JS.split "/" ("/" ++ JS.join "/" (l ++ [last]))
                   = EmptyString :: (l ++ [last])%list).
  { assert (Hj : JS.join "/" (EmptyString :: (l ++ [last])%list)
                 = "/" ++ JS.join "/" (l ++ [last]))
      by (now rewrite join_cons).
    rewrite <- Hj.
    apply (split_join "/"); [discriminate|]. simpl. exact Hslash. }
  assert (Htrail : Path.ends_with_slash ("/" ++ JS.join "/" (l ++ [last])) = false).
  { rewrite forallb_app in Hslash. apply andb_true_iff in Hslash as [_ Hl].
    simpl in Hl. rewrite andb_true_r in Hl. apply negb_true_iff in Hl.
    destruct l as [|y l].
    - simpl app. simpl JS.join.
      rewrite ends_with_slash_app by exact Hlast. now apply ends_with_slash_none.
    - rewrite join_snoc by discriminate.
      rewrite <- !string_app_assoc.
      rewrite ends_with_slash_app by exact Hlast. now apply ends_with_slash_none. }
  unfold Path.normalize.
  rewrite Hsplit, Htrail.
  change (String.eqb ("/" ++ JS.join "/" (l ++ [last])) EmptyString) with false.
  change (Path.starts_with_slash ("/" ++ JS.join "/" (l ++ [last]))) with true.
  cbv zeta. cbn [negb]. rewrite !andb_false_r.
  reflexivity.
Qed.

(** Appending a clean name to a clean absolute path. *)
Lemma join_clean (ps : list string) (name : string) :
  forallb entry_name_ok ps = true ->
  entry_name_ok name = true ->
  Path.join ("/" ++ JS.join "/" ps) name = "/" ++ JS.join "/" (ps ++ [name]).
Proof.
  intros Hps Hname.
  pose proof (entry_name_ok_inv _ Hname) as (Hne & Hslash & _ & _).
  unfold Path.join. cbn [filter].
  change (String.eqb ("/" ++ JS.join "/" ps) EmptyString) with false.
  replace (String.eqb name EmptyString) with false
    by (symmetry; now apply String.eqb_neq).
  cbn [negb]. cbv iota beta.
  destruct ps as [|q ps].
  - change (JS.join "/" ["/" ++ JS.join "/" []; name])
      with ("/" ++ JS.join "/" ([EmptyString] ++ [name])).
    rewrite normalize_absolute; [|simpl; now rewrite Hslash|exact Hne].
    simpl. apply String.eqb_neq in Hne.
    pose proof (entry_name_ok_inv _ Hname) as (_ & _ & H2 & H3).
    apply String.eqb_neq in H2, H3. now rewrite Hne, H2, H3.
  - replace (JS.join "/" ["/" ++ JS.join "/" (q :: ps); name])
      with ("/" ++ JS.join "/" ((q :: ps) ++ [name])).
    2:{ rewrite join_snoc by discriminate.
        change (JS.join "/" ["/" ++ JS.join "/" (q :: ps); name])
          with (("/" ++ JS.join "/" (q :: ps)) ++ "/" ++ name).
        now rewrite string_app_assoc. }
    assert (Hall : forallb entry_name_ok ((q :: ps) ++ [name]) = true).
    { rewrite forallb_app, Hps. simpl. now rewrite Hname. }
    rewrite normalize_absolute;
      [|now apply names_without_slash|exact Hne].
    rewrite <- (app_nil_r ((q :: ps) ++ [name])) at 1.
    rewrite normalizeString_clean by exact Hall.
    cbn [Path.normalizeString]. now rewrite app_nil_r, rev_involutive.
Qed.

(** [..] after a clean absolute path removes its last segment. *)
Lemma join_parent (qs : list string) (name : string) :
  forallb entry_name_ok qs = true ->
  entry_name_ok name = true ->
  Path.join ("/" ++ JS.join "/" (qs ++ [name])) ".." = "/" ++ JS.join "/" qs.
Proof.
  intros Hqs Hname.
  pose proof (entry_name_ok_inv _ Hname) as (Hne & Hslash & H2 & H3).
  assert (Hall : forallb entry_name_ok (qs ++ [name]) = true).
  { rewrite forallb_app, Hqs. simpl. now rewrite Hname. }
  unfold Path.join. cbn [filter].
  change (String.eqb ("/" ++ JS.join "/" (qs ++ [name])) EmptyString) with false.
  change (String.eqb ".." EmptyString) with false.
  cbn [negb]. cbv iota beta.
  replace (JS.join "/" ["/" ++ JS.join "/" (qs ++ [name]); ".."])
    with ("/" ++ JS.join "/" ((qs ++ [name]) ++ [".."])).
  2:{ rewrite join_snoc by (destruct qs; discriminate).
      change (JS.join "/" ["/" ++ JS.join "/" (qs ++ [name]); ".."])
        with (("/" ++ JS.join "/" (qs ++ [name])) ++ "/" ++ "..").
      now rewrite string_app_assoc. }
  rewrite normalize_absolute; [| |discriminate].
  2:{ rewrite forallb_app, (names_without_slash _ Hall). reflexivity. }
  rewrite normalizeString_clean by exact Hall.
  rewrite rev_app_distr. simpl.
  apply String.eqb_neq in H3. rewrite H3.
  now rewrite app_nil_r, rev_involutive.
Qed.

(** A chain of joins down a clean path. *)
Lemma fold_join_clean (names ps : list string) :
  forallb entry_name_ok ps = true ->
  forallb entry_name_ok names = true ->
  fold_left Path.join names ("/" ++ JS.join "/" ps)
  = "/" ++ JS.join "/" (ps ++ names).
Proof.
  revert ps. induction names as [|n names IH]; intros ps Hps Hnames.
  - now rewrite app_nil_r.
  - simpl in Hnames. apply andb_true_iff in Hnames as [Hn Hnames].
    cbn [fold_left]. rewrite join_clean by assumption.
    rewrite IH; [now rewrite <- app_assoc| |exact Hnames].
    rewrite forallb_app, Hps. simpl. now rewrite Hn.
Qed.

(** ** A walk that returns *)

Section StaticWalk.

Context {host : Host}.

Lemma add_routes_nil (s : ServerShell) : add_routes s [] = s.
Proof. destruct s. unfold add_routes. simpl. now rewrite app_nil_r. Qed.

Lemma add_routes_app (s : ServerShell) (l1 l2 : list Route) :
  add_routes (add_routes s l1) l2 = add_routes s (l1 ++ l2).
Proof. unfold add_routes. simpl. now rewrite app_assoc. Qed.

Lemma files_read_app (t1 t2 : list Event) :
  files_read (t1 ++ t2) = (files_read t1 ++ files_read t2)%list.
Proof. apply flat_map_app. Qed.

Lemma map_flat_map {A B C} (g : B -> C) (f : A -> list B) (l : list A) :
  map g (flat_map f l) = flat_map (fun x => map g (f x)) l.
Proof.
  induction l as [|x l IH]; simpl; [reflexivity|]. now rewrite map_app, IH.
Qed.

Lemma emit_run {S} (ev : Event) (s : S) : emit ev s = mkOutcome s [ev] (inr tt).
Proof. reflexivity. Qed.

(** A loop whose every round, when it returns, has pushed [F x] and read
    [G x]: when the loop returns it has pushed and read all of them. *)
Lemma for_of_success {A} (F : A -> list Route) (G : A -> list string)
    (l : list A) (body : A -> Eff ServerShell unit) :
  Forall (fun x => forall s,
            result (body x s) = inr tt ->
            final (body x s) = add_routes s (F x)
            /\ files_read (trace (body x s)) = G x) l ->
  forall s,
    result (for_of l body s) = inr tt ->
    final (for_of l body s) = add_routes s (flat_map F l)
    /\ files_read (trace (for_of l body s)) = flat_map G l.
Proof.
  induction 1 as [|x l Hx Hl IH]; intros s Hres.
  - simpl. now rewrite add_routes_nil.
  - rewrite for_of_cons in *.
    destruct (bind_result_inr _ _ _ _ Hres) as ([] & Hbody & Hrest).
    rewrite (bind_ok _ _ _ _ Hbody). cbn [final trace].
    destruct (Hx s Hbody) as [Hf Ht].
    destruct (IH _ Hrest) as [Hf' Ht'].
    rewrite files_read_app, Ht, Ht', Hf', Hf, add_routes_app. auto.
Qed.

Lemma useStatic_entry_success (d0 r0 : string) (entry : DirEntry) :
  forall dirs s,
    result (useStatic_entry (fold_left Path.join dirs d0)
              (fold_left Path.join dirs r0) entry s) = inr tt ->
    final (useStatic_entry (fold_left Path.join dirs d0)
             (fold_left Path.join dirs r0) entry s)
    = add_routes s (map (static_binding r0) (regular_files dirs entry))
    /\ files_read (trace (useStatic_entry (fold_left Path.join dirs d0)
                            (fold_left Path.join dirs r0) entry s))
       = map (static_source d0) (regular_files dirs entry).
Proof.
  induction entry as [name data|name entries IH|name] using DirEntry_nested_ind;
    intros dirs s Hres.
  - rewrite useStatic_entry_file in *.
    rewrite (bind_inr _ _ _ _ _ _ (emit_run _ s)) in *.
    cbn [result final trace] in *.
    rewrite useStatic_file_get, register_run in *.
    destruct (existsb _ (routes s)); [discriminate|].
    cbn [final trace regular_files map].
    unfold static_binding, static_route, static_source. cbn [sf_dirs sf_name sf_data].
    rewrite !fold_left_app. cbn [fold_left]. split; reflexivity.
  - rewrite useStatic_entry_directory in *.
    rewrite (bind_inr _ _ _ _ _ _ (emit_run _ s)) in *.
    cbn [result final trace] in *.
    assert (Hd : Path.join (fold_left Path.join dirs d0) name
                 = fold_left Path.join (dirs ++ [name]) d0)
      by (now rewrite fold_left_app).
    assert (Hr : Path.join (fold_left Path.join dirs r0) name
                 = fold_left Path.join (dirs ++ [name]) r0)
      by (now rewrite fold_left_app).
    rewrite Hd, Hr in *.
    cbn [regular_files]. rewrite !map_flat_map.
    rewrite files_read_app. cbn [files_read flat_map app].
    apply for_of_success; [|exact Hres].
    apply Forall_impl with (2 := IH). intros e He s0. apply He.
  - cbn [useStatic_entry regular_files map] in *.
    now rewrite add_routes_nil.
Qed.

(** [useStatic] that returns has read every regular file of the tree once
    and pushed one binding for each, in the order of the walk. *)
Lemma useStatic_success (d0 r0 : string) (entries : list DirEntry) (s : ServerShell) :
  result (useStatic d0 r0 entries s) = inr tt ->
  final (useStatic d0 r0 entries s)
  = add_routes s (map (static_binding r0) (tree_files entries))
  /\ files_read (trace (useStatic d0 r0 entries s))
     = map (static_source d0) (tree_files entries).
Proof.
  unfold useStatic, tree_files. intros Hres.
  rewrite (bind_inr _ _ _ _ _ _ (emit_run _ s)) in *.
  cbn [result final trace] in *.
  rewrite !map_flat_map, files_read_app. cbn [files_read flat_map app].
  apply for_of_success; [|exact Hres].
  apply Forall_forall. intros e _ s0.
  apply (useStatic_entry_success d0 r0 e []).
Qed.

(** *** A walk that may throw *)

Lemma walked_nil d0 r0 (s : ServerShell) : walked d0 r0 [] s (ret tt s).
Proof.
  exists [], []. split; [reflexivity|]. split; [now rewrite add_routes_nil|].
  left. auto.
Qed.

(** Two walks in a row; the second runs only if the first returned. *)
Lemma walked_bind d0 r0 (fsA fsB : list StaticFile)
    (mA mB : Eff ServerShell unit) (s : ServerShell) :
  walked d0 r0 fsA s (mA s) ->
  (result (mA s) = inr tt -> walked d0 r0 fsB (final (mA s)) (mB (final (mA s)))) ->
  walked d0 r0 (fsA ++ fsB) s (bind mA (fun _ => mB) s).
Proof.
  intros (a1 & a2 & -> & HfA & HA) HB.
  destruct HA as [(HrA & -> & HtA)|(f & fs3 & -> & HrA & HtA)].
  - destruct (HB HrA) as (b1 & b2 & -> & HfB & HB').
    rewrite (bind_ok _ _ _ _ HrA). rewrite app_nil_r.
    exists (a1 ++ b1)%list, b2. split; [now rewrite app_assoc|].
    cbn [final trace result]. split.
    + now rewrite HfB, HfA, add_routes_app, map_app.
    + rewrite files_read_app, HtA.
      destruct HB' as [(HrB & -> & HtB)|(f & fs3 & -> & HrB & HtB)].
      * left. now rewrite HtB, map_app.
      * right. exists f, fs3. rewrite HtB, <- map_app, <- app_assoc. auto.
  - rewrite (bind_throws _ _ _ _ HrA).
    exists a1, (f :: fs3 ++ fsB)%list. split; [now rewrite <- app_assoc|].
    cbn [final trace result]. split; [exact HfA|].
    right. exists f, (fs3 ++ fsB)%list. auto.
Qed.

(** A directory read before a walk changes nothing of it. *)
Lemma walked_readDir d0 r0 (fs : list StaticFile) (dir : string)
    (m : Eff ServerShell unit) (s : ServerShell) :
  walked d0 r0 fs s (m s) ->
  walked d0 r0 fs s (bind (emit (ReadDirSync dir)) (fun _ => m) s).
Proof.
  intros (fs1 & fs2 & -> & Hf & H).
  rewrite (bind_inr _ _ _ _ _ _ (emit_run _ s)).
  exists fs1, fs2. split; [reflexivity|]. cbn [final trace result].
  split; [exact Hf|]. rewrite files_read_app. exact H.
Qed.

Lemma walked_for_of {A} d0 r0 (F : A -> list StaticFile) (l : list A)
    (body : A -> Eff ServerShell unit) :
  Forall (fun x => forall s, walked d0 r0 (F x) s (body x s)) l ->
  forall s, walked d0 r0 (flat_map F l) s (for_of l body s).
Proof.
  induction 1 as [|x l Hx Hl IH]; intros s.
  - apply walked_nil.
  - rewrite for_of_cons. cbn [flat_map]. apply walked_bind; [apply Hx|].
    intros _. apply IH.
Qed.

Lemma useStatic_entry_walked (d0 r0 : string) (entry : DirEntry) :
  forall dirs s,
    walked d0 r0 (regular_files dirs entry) s
      (useStatic_entry (fold_left Path.join dirs d0)
         (fold_left Path.join dirs r0) entry s).
Proof.
  induction entry as [name data|name entries IH|name] using DirEntry_nested_ind;
    intros dirs s.
  - rewrite useStatic_entry_file.
    rewrite (bind_inr _ _ _ _ _ _ (emit_run _ s)).
    rewrite useStatic_file_get, register_run.
    cbn [regular_files].
    set (f := {| sf_dirs := dirs; sf_name := name; sf_data := data |}).
    assert (Hroute : JS.replaceAll "\" "/"
                       (if String.eqb (file_stem name) "index"
                           && option_string_eqb (file_extension name) "html"
                        then Path.join (Path.join (fold_left Path.join dirs r0) name) ".."
                        else Path.join (fold_left Path.join dirs r0) name)
                     = static_route r0 f).
    { unfold static_route, f. cbn [sf_dirs sf_name].
      now rewrite fold_left_app. }
    assert (Hsrc : Path.join (fold_left Path.join dirs d0) name = static_source d0 f).
    { unfold static_source, f. cbn [sf_dirs sf_name]. now rewrite fold_left_app. }
    rewrite Hroute, Hsrc.
    destruct (existsb _ (routes s)); cbn [final trace result].
    + exists [], [f]. split; [reflexivity|].
      split; [now rewrite add_routes_nil|]. right. exists f, []. auto.
    + exists [f], []. split; [reflexivity|]. split; [reflexivity|]. left. auto.
  - rewrite useStatic_entry_directory. apply walked_readDir.
    assert (Hd : Path.join (fold_left Path.join dirs d0) name
                 = fold_left Path.join (dirs ++ [name]) d0)
      by (now rewrite fold_left_app).
    assert (Hr : Path.join (fold_left Path.join dirs r0) name
                 = fold_left Path.join (dirs ++ [name]) r0)
      by (now rewrite fold_left_app).
    rewrite Hd, Hr. cbn [regular_files].
    apply walked_for_of.
    apply Forall_impl with (2 := IH). intros e He s0. apply He.
  - apply walked_nil.
Qed.

(** Every run of [useStatic], returning or not, is such a walk. *)
Lemma useStatic_walked (d0 r0 : string) (entries : list DirEntry) (s : ServerShell) :
  walked d0 r0 (tree_files entries) s (useStatic d0 r0 entries s).
Proof.
  unfold useStatic, tree_files. apply walked_readDir.
  apply walked_for_of. apply Forall_forall. intros e _ s0.
  apply (useStatic_entry_walked d0 r0 e []).
Qed.

(** The handler reads no file. *)
Lemma listen_handler_reads_nothing (s : ServerShell) req info w :
  files_read (trace (listen_handler s req info w)) = [].
Proof.
  rewrite listen_handler_run.
  destruct (snd (middleware s req info w)); [reflexivity|].
  cbv zeta. cbn [trace files_read flat_map app].
  generalize (cannot (JS.toUpperCase (method req)) (URL_pathname (url req))).
  generalize (fst (middleware s req info w)).
  induction (routes s) as [|r rs IH]; intros w0 rv; [reflexivity|].
  rewrite route_loop_cons. unfold bind.
  destruct (matches _ _ r).
  - rewrite await_callback_run. cbn [result final trace].
    destruct (snd (callback r req info w0)); [reflexivity|].
    cbn [trace]. rewrite flat_map_app. apply IH.
  - cbn [ret result final trace app]. apply IH.
Qed.

End StaticWalk.

(** ** Static binding: routes, names and captured contents *)

Section StaticClaims.

Context {host : Host}.

(** On clean names the route the code computes is the one the
    specification describes. *)
Lemma static_route_clean (prefix : list string) (f : StaticFile) :
  forallb entry_name_ok prefix = true ->
  forallb entry_name_ok (sf_dirs f ++ [sf_name f]) = true ->
  static_route ("/" ++ JS.join "/" prefix) f
  = spec_static_route prefix (sf_dirs f) (sf_name f).
Proof.
  intros Hprefix Hnames.
  unfold static_route, spec_static_route.
  rewrite index_html_test.
  rewrite fold_join_clean by assumption.
  destruct (String.eqb (sf_name f) "index.html"); [|reflexivity].
  rewrite forallb_app in Hnames. apply andb_true_iff in Hnames as [Hdirs Hname].
  simpl in Hname. rewrite andb_true_r in Hname.
  rewrite app_assoc, join_parent; [reflexivity| |exact Hname].
  now rewrite forallb_app, Hprefix, Hdirs.
Qed.

(** C6.  Bound under the prefix [/p1/.../pk], a file at [d1/.../dn/name]
    of the tree gets the route [/p1/.../pk/d1/.../dn/name], its extension
    kept, with every backslash turned into a slash; a file named
    [index.html], and no other, gets the route of its directory,
    [/p1/.../pk/d1/.../dn].  A walk that returns has added these routes
    to the table, one per regular file in walk order.  Names are those a
    directory listing can hold. *)
Theorem static_routes_follow_tree (d0 : string) (prefix : list string)
    (entries : list DirEntry) (s : ServerShell) :
  forallb entry_name_ok prefix = true ->
  Forall (fun f => forallb entry_name_ok (sf_dirs f ++ [sf_name f]) = true)
         (tree_files entries) ->
  result (useStatic d0 ("/" ++ JS.join "/" prefix) entries s) = inr tt ->
  map path (routes (final (useStatic d0 ("/" ++ JS.join "/" prefix) entries s)))
  = (map path (routes s)
     ++ map (fun f => spec_static_route prefix (sf_dirs f) (sf_name f))
            (tree_files entries))%list.
Proof.
  intros Hprefix Hnames Hres.
  destruct (useStatic_success _ _ _ _ Hres) as [Hfinal _].
  rewrite Hfinal. unfold add_routes. cbn [routes].
  rewrite map_app, map_map. f_equal.
  apply map_ext_in. intros f Hf.
  rewrite Forall_forall in Hnames.
  cbn [static_binding path]. apply static_route_clean; auto.
Qed.

(** Every run of [useStatic] reads the regular files of the tree in
    walk order, each once and during the run, binding each right after
    reading it, until the end or until a route is refused; a run that
    returns has read them all and pushed one binding for each.  Each
    binding is a GET binding whose callback, whatever the request and the
    world, yields the text decoded at that time, status 200 and the
    content type [MIMEFromExt] gives the file's extension; the only thing
    it does to the world is the console line of [MIMEFromExt].  Handling
    a request reads no file. *)
Lemma static_bindings_capture (d0 r0 : string) (entries : list DirEntry)
    (s : ServerShell) :
  let o := useStatic d0 r0 entries s in
  walked d0 r0 (tree_files entries) s o
  /\ (result o = inr tt ->
      files_read (trace o) = map (static_source d0) (tree_files entries)
      /\ routes (final o)
         = (routes s ++ map (static_binding r0) (tree_files entries))%list)
  /\ (forall f,
        route_method (static_binding r0 f) = "GET"
        /\ forall req info w,
             callback (static_binding r0 f) req info w
             = (fst (MIMEFromExt (file_extension (sf_name f)) w),
                inr {| body := Some (BodyText (TextDecoder_decode (sf_data f)));
                       init := Some {| headers :=
                                         Some [("Content-Type",
                                                content_type_of (file_extension (sf_name f)))];
                                       status := Some 200%Z |} |}))
  /\ (forall s' req info w, files_read (trace (listen_handler s' req info w)) = []).
Proof.
  cbv zeta. split; [apply useStatic_walked|]. split; [|split].
  - intros Hres. destruct (useStatic_success _ _ _ _ Hres) as [Hfinal Hread].
    split; [exact Hread|now rewrite Hfinal].
  - intros f. split; [reflexivity|]. intros req info w.
    cbn [static_binding callback]. unfold static_listener.
    rewrite <- (MIMEFromExt_content_type _ w).
    destruct (MIMEFromExt (file_extension (sf_name f)) w); reflexivity.
  - apply listen_handler_reads_nothing.
Qed.

End StaticClaims.

(** C7.  A file named [html], with no dot: [useStatic] takes the whole
    name for the extension and the empty string for the name, so the file
    is served as [text/html], where the earlier revision found no
    extension and served [text/plain]. *)
Theorem dotless_name_taken_for_extension :
  file_extension "html" = Some "html"
  /\ file_stem "html" = EmptyString
  /\ content_type_of (file_extension "html") = "text/html"
  /\ Legacy.file_extension "html" = None
  /\ Legacy.MIMEFromExt (Legacy.file_extension "html") = "text/plain"
  /\ result (listen_handler demo_shell
               (demo_request "GET" "http://localhost:8000/static/img/html") tt [])
     = inr (new_Response (Some (BodyText "no dot"))
              (Some {| headers := Some [("Content-Type", "text/html")];
                       status := Some 200%Z |})).
Proof. repeat split. Qed.

(** ** The claims on concrete shells *)

Lemma dispatch_first_match_witness :
  first_match_only demo_shell
    (demo_request "get" "http://localhost:8000/a?x=1") tt []
    (listen_handler demo_shell (demo_request "get" "http://localhost:8000/a?x=1") tt [])
  /\ result (listen_handler demo_shell
               (demo_request "get" "http://localhost:8000/a?x=1") tt [])
     = inr (new_Response (Some (BodyText "get a")) None).
Proof.
  split; [|reflexivity].
  apply (dispatch_first_match demo_shell
           (demo_request "get" "http://localhost:8000/a?x=1") tt [] []
           (@undefined demo_host)).
  - unfold demo_shell. apply run_calls_reachable. apply reachable_new.
  - reflexivity.
Defined.

Lemma not_found_response_witness :
  result (listen_handler demo_shell (demo_request "Get" "http://localhost:8000/zz") tt [])
  = inr (new_Response (Some (BodyText "Cannot get /zz"))
           (Some {| headers := Some [("Content-Type", "text/html")];
                    status := Some 404%Z |})).
Proof.
  apply (not_found_response demo_shell
           (demo_request "Get" "http://localhost:8000/zz") tt []).
  - reflexivity.
  - exists (@undefined demo_host). reflexivity.
Defined.

Lemma reachable_uniqueness_witness : uniqueness (routes demo_shell).
Proof.
  apply (reachable_uniqueness demo_shell).
  unfold demo_shell. apply run_calls_reachable. apply reachable_new.
Defined.

Lemma hook_once_first_ignored_replaced_witness :
  listen_handler (final (use (demo_hook 1) demo_shell))
    (demo_request "GET" "http://localhost:8000/b") tt []
  = listen_handler (final (use (demo_hook 2) demo_shell))
      (demo_request "GET" "http://localhost:8000/b") tt []
  /\ final (listen_handler
              (final (use (demo_hook 2) (final (use demo_throwing_hook demo_shell))))
              (demo_request "GET" "http://localhost:8000/zz") tt [])
     = ["hook"].
Proof.
  split.
  - apply (proj1 (proj2 (@hook_once_first_ignored_replaced demo_host)))
      with (w1 := ["hook"]) (v := 1) (v' := 2); reflexivity.
  - apply (proj2 (proj2 (proj2 (proj2 (@hook_once_first_ignored_replaced demo_host))))
             demo_shell demo_throwing_hook (demo_hook 2)
             (demo_request "GET" "http://localhost:8000/zz") tt [] ["hook"] 2);
      reflexivity.
Defined.

Lemma static_routes_follow_tree_witness :
  map path (routes (final (useStatic "./static" "/static" demo_tree
                             (@ServerShell_new demo_host None))))
  = [ "/static"; "/static/img/logo.png"; "/static/img/html";
      "/static/img/archive.tar.gz"; "/static/Makefile" ].
Proof.
  apply (static_routes_follow_tree "./static" ["static"] demo_tree
           (@ServerShell_new demo_host None)).
  - reflexivity.
  - repeat constructor.
  - reflexivity.
Defined.

Lemma MIMEFromExt_lookup_witness :
  @MIMEFromExt demo_host (Some "xyz") []
  = ([unknown_extension_notice (Some "xyz")], "text/plain").
Proof.
  apply (proj1 (proj2 (proj2 (@MIMEFromExt_lookup demo_host))) "xyz" []).
  simpl. intuition discriminate.
Defined.

Lemma default_hook_is_noop_witness :
  middleware demo_shell (demo_request "GET" "http://localhost:8000/a") tt ["line"]
  = (["line"], inr (@undefined demo_host)).
Proof.
  apply (default_hook_is_noop None demo_calls
           (demo_request "GET" "http://localhost:8000/a") tt ["line"]).
  reflexivity.
Defined.

(** ** The earlier revision against mod.ts *)

(** On a table without ANY bindings, which is all the earlier revision
    can build, its loop is the loop of mod.ts. *)
Lemma legacy_route_loop {host : Host} (rs : list Route) p m req info rv w :
  forallb (fun r => negb (String.eqb (route_method r) "ANY")) rs = true ->
  Legacy.route_loop rs p m req info rv w = route_loop rs p m req info rv w.
Proof.
  revert rv w. induction rs as [|r rs IH]; intros rv w H; [reflexivity|].
  simpl in H. apply andb_true_iff in H as [Hr Hrs]. apply negb_true_iff in Hr.
  simpl. rewrite Hr, andb_false_r. unfold bind.
  destruct (Route_equals r p m).
  - destruct (result (await_callback r req info w)); [reflexivity|].
    now rewrite IH.
  - simpl. now rewrite IH.
Qed.

(** The earlier [get] refuses a path bound for POST; [get] of mod.ts
    accepts it. *)
Example legacy_get_refuses_bound_path :
  result (Legacy.get "/a" (demo_listener "get")
            (final (Legacy.post "/a" (demo_listener "post")
                      (@ServerShell_new demo_host None))))
  = inl (RouteAlreadyBoundError "/a")
  /\ result (get "/a" (demo_listener "get")
               (final (post "/a" (demo_listener "post")
                         (@ServerShell_new demo_host None))))
     = inr tt.
Proof. split; reflexivity. Qed.

(** The earlier revision takes what follows the first dot, up to the
    second; mod.ts what follows the last. *)
Example legacy_extension_after_first_dot :
  Legacy.file_extension "archive.tar.gz" = Some "tar"
  /\ file_extension "archive.tar.gz" = Some "gz"
  /\ Legacy.file_stem "archive.tar.gz" = Some "archive"
  /\ file_stem "archive.tar.gz" = "archive.tar".
Proof. repeat split. Qed.

(** The earlier table has no [png]. *)
Example legacy_png_is_plain :
  Legacy.MIMEFromExt (Some "png") = "text/plain"
  /\ content_type_of (Some "png") = "image/png".
Proof. split; reflexivity. Qed.

(** ** The examples of the specification *)

Example index_html_folds_upward :
  static_route "/sub" (@mkStaticFile demo_host [] "index.html" "home") = "/sub"
  /\ static_route "/" (@mkStaticFile demo_host [] "index.html" "home") = "/"
  /\ static_route "/site" (@mkStaticFile demo_host ["assets"] "index.html" "home")
     = "/site/assets".
Proof. repeat split. Qed.

Example extension_kept_in_route :
  static_route "/static" (@mkStaticFile demo_host ["img"] "logo.png" "PNG")
  = "/static/img/logo.png"
  /\ content_type_of (file_extension "logo.png") = "image/png".
Proof. split; reflexivity. Qed.

Example backslash_becomes_slash :
  static_route "/static" (@mkStaticFile demo_host [] "a\b.txt" "text")
  = "/static/a/b.txt".
Proof. reflexivity. Qed.

Example no_path_normalisation_in_matching :
  matches "/a/" "GET" (@new_Route demo_host "/a" "GET" (demo_listener "a")) = false
  /\ matches "/A" "GET" (@new_Route demo_host "/a" "GET" (demo_listener "a")) = false
  /\ matches "/a" "POST" (@new_Route demo_host "/a" "GET" (demo_listener "a")) = false
  /\ matches "/a" "POST" (@new_Route demo_host "/a" "ANY" (demo_listener "a")) = true.
Proof. repeat split. Qed.

Example unknown_extension_is_plain :
  @MIMEFromExt demo_host (Some "xyz") []
  = ([unknown_extension_notice (Some "xyz")], "text/plain").
Proof. reflexivity. Qed.

Example any_after_get_is_refused :
  map (fun r => (path r, route_method r)) (routes demo_shell)
  = [ ("/a", "GET"); ("/a", "POST"); ("/b", "ANY");
      ("/static", "GET"); ("/static/img/logo.png", "GET");
      ("/static/img/html", "GET"); ("/static/img/archive.tar.gz", "GET");
      ("/static/Makefile", "GET") ].
Proof. reflexivity. Qed.

(** * Further properties of the code *)

(** ** Registering, then dispatching *)

Section RoundTrip.

Context {host : Host}.

(** What matches a request for [p] with the method of verb [v] (any
    method when [v] is ANY) conflicts with registering [v] at [p]. *)
Lemma matches_conflicts (v : Verb) (p m : string) (y : Route) :
  v = ANY \/ m = verb_name v ->
  matches p m y = true -> conflicts v p y = true.
Proof.
  intros Hm Hy. apply matches_spec in Hy as [Hp Hy].
  unfold conflicts. rewrite Hp, String.eqb_refl. simpl.
  destruct Hm as [-> | ->].
  - simpl. now rewrite orb_true_r.
  - destruct Hy as [-> | ->].
    + now rewrite String.eqb_refl.
    + simpl. now rewrite orb_true_r.
Qed.

Lemma no_conflict_no_match (v : Verb) (p m : string) (rs : list Route) :
  v = ANY \/ m = verb_name v ->
  existsb (conflicts v p) rs = false ->
  existsb (matches p m) rs = false.
Proof.
  intros Hm. induction rs as [|y rs IH]; simpl; [reflexivity|].
  intros H. apply orb_false_elim in H as [Hy Hrs].
  rewrite (IH Hrs), orb_false_r.
  destruct (matches p m y) eqn:E; [|reflexivity].
  now rewrite (matches_conflicts v p m y Hm E) in Hy.
Qed.

(** A registered binding matches the requests for its path and method,
    and every request for its path when it is ANY. *)
Lemma new_route_matches (v : Verb) (p m : string) (l : Listener) :
  v = ANY \/ m = verb_name v ->
  matches p m (new_Route p (verb_name v) l) = true.
Proof.
  intros [-> | ->]; unfold matches; simpl; rewrite String.eqb_refl; simpl.
  - now rewrite orb_true_r.
  - now rewrite String.eqb_refl.
Qed.

(** The handler when exactly one binding matches. *)
Lemma listen_handler_sole_match (s : ServerShell) (r : Route) req info w w1 x :
  filter (matches (URL_pathname (url req)) (JS.toUpperCase (method req))) (routes s)
  = [r] ->
  middleware s req info w = (w1, inr x) ->
  listen_handler s req info w
  = mkOutcome (fst (callback r req info w1))
              [Call_middleware req info; Call_callback r req info]
              (respond (snd (callback r req info w1))).
Proof.
  intros Hfilter Hmw.
  rewrite listen_handler_run, Hmw. cbv zeta. cbn [fst snd].
  rewrite route_loop_call_each, Hfilter.
  cbn [call_each]. unfold bind. rewrite await_callback_run. cbn [result final trace].
  destruct (snd (callback r req info w1)); reflexivity.
Qed.

(** X1.  Register, then look up.  After a binding method has returned,
    a request for the bound path with the bound method (with any method,
    for [any]) whose hook returns is answered by calling the new listener
    and nothing else, whatever the shell held before. *)
Theorem registered_listener_answers (v : Verb) (p : string) (l : Listener)
    (s : ServerShell) (req : Request) (info : Info) (w w1 : World) (x : JSValue) :
  result (register v p l s) = inr tt ->
  URL_pathname (url req) = p ->
  v = ANY \/ JS.toUpperCase (method req) = verb_name v ->
  middleware s req info w = (w1, inr x) ->
  listen_handler (final (register v p l s)) req info w
  = mkOutcome (fst (l req info w1))
              [Call_middleware req info;
               Call_callback (new_Route p (verb_name v) l) req info]
              (respond (snd (l req info w1))).
Proof.
  intros Hres Hp Hm Hmw.
  rewrite register_run in *.
  destruct (existsb (conflicts v p) (routes s)) eqn:Hno; [discriminate|].
  cbn [final].
  apply (listen_handler_sole_match _ (new_Route p (verb_name v) l) _ _ _ w1 x);
    [|exact Hmw].
  cbn [with_route routes]. rewrite filter_app, Hp.
  rewrite (existsb_false_filter _ (routes s))
    by (now apply (no_conflict_no_match v)).
  cbn [filter app]. now rewrite new_route_matches.
Qed.

(** In a table that passes the check, a binding is the only match of the
    requests for its own path and method. *)
Lemma table_ok_sole_match (rs : list Route) (r : Route) (m : string) :
  table_ok rs = true ->
  In r rs ->
  m = route_method r \/ route_method r = "ANY" ->
  filter (matches (path r) m) rs = [r].
Proof.
  intros Hok Hin Hm.
  assert (Hself : matches (path r) m r = true).
  { apply matches_spec. split; [reflexivity|]. destruct Hm; auto. }
  assert (Hother : forall y, compatible r y = true -> matches (path r) m y = false).
  { intros y Hc. destruct (matches (path r) m y) eqn:E; [|reflexivity].
    apply matches_spec in E as [Hp Hy].
    unfold compatible in Hc. apply negb_true_iff in Hc.
    rewrite Hp, String.eqb_refl in Hc. simpl in Hc.
    apply orb_false_elim in Hc as [Hc Hc3].
    apply orb_false_elim in Hc as [Hc1 Hc2].
    apply String.eqb_neq in Hc1, Hc2, Hc3.
    destruct Hm as [->|Hm]; [|congruence].
    destruct Hy; congruence. }
  induction rs as [|y rs IH]; [contradiction|].
  simpl in Hok. apply andb_true_iff in Hok as [Hall Hok].
  rewrite forallb_forall in Hall.
  destruct Hin as [->|Hin].
  - cbn [filter]. rewrite Hself. f_equal.
    apply existsb_false_filter.
    destruct (existsb (matches (path r) m) rs) eqn:E; [|reflexivity].
    apply existsb_exists in E as (z & Hz & Hzm).
    now rewrite (Hother z (Hall z Hz)) in Hzm.
  - cbn [filter].
    rewrite (Hother y) by (rewrite compatible_sym; now apply Hall).
    now apply IH.
Qed.

(** X2.  On every shell built by setup calls, each binding of the table
    is the sole responder for its own path and method: a request for
    them whose hook returns is answered by calling that binding's
    callback and no other, however many calls came before or after the
    one that registered it. *)
Theorem reachable_binding_answers_alone (s : ServerShell) (r : Route)
    (req : Request) (info : Info) (w w1 : World) (x : JSValue) :
  reachable s ->
  In r (routes s) ->
  URL_pathname (url req) = path r ->
  JS.toUpperCase (method req) = route_method r \/ route_method r = "ANY" ->
  middleware s req info w = (w1, inr x) ->
  listen_handler s req info w
  = mkOutcome (fst (callback r req info w1))
              [Call_middleware req info; Call_callback r req info]
              (respond (snd (callback r req info w1))).
Proof.
  intros Hreach Hin Hp Hm Hmw.
  apply (listen_handler_sole_match s r req info w w1 x); [|exact Hmw].
  rewrite Hp. apply table_ok_sole_match; auto.
  now apply reachable_table_ok.
Qed.

End RoundTrip.

(** ** What setup calls never do *)

Section Stability.

Context {host : Host}.

Lemma find_app_some {A} (f : A -> bool) (l l' : list A) (x : A) :
  find f l = Some x -> find f (l ++ l') = Some x.
Proof.
  induction l as [|y l IH]; simpl; [discriminate|].
  destruct (f y); [auto|exact IH].
Qed.

Lemma extends_push_closed (s0 : ServerShell) :
  push_closed (fun s => exists extra, routes s = (routes s0 ++ extra)%list).
Proof.
  intros v s p l [extra Hs] _. exists (extra ++ [new_Route p (verb_name v) l])%list.
  cbn [with_route routes]. now rewrite Hs, app_assoc.
Qed.

Lemma run_call_extends (c : Call) (s : ServerShell) :
  exists extra, routes (final (run_call c s)) = (routes s ++ extra)%list.
Proof.
  destruct (is_Use c) eqn:Hc.
  - destruct c; try discriminate. exists []. cbn. now rewrite app_nil_r.
  - apply (run_call_preserves
             (fun s' => exists extra, routes s' = (routes s ++ extra)%list));
      [apply extends_push_closed|exact Hc|].
    exists []. now rewrite app_nil_r.
Qed.

(** X3.  No sequence of setup calls, returning or throwing, removes,
    replaces or reorders a binding: the table afterwards is the table
    before with bindings added at its end, so whatever a path and method
    resolved to before, they resolve to afterwards. *)
Theorem setup_calls_only_append (cs : list Call) (s : ServerShell) :
  exists extra,
    routes (run_calls cs s) = (routes s ++ extra)%list
    /\ forall p m r,
         spec_resolve (routes s) p m = Some r ->
         spec_resolve (routes (run_calls cs s)) p m = Some r.
Proof.
  assert (H : exists extra, routes (run_calls cs s) = (routes s ++ extra)%list).
  { revert s. induction cs as [|c cs IH]; intros s.
    - exists []. cbn. now rewrite app_nil_r.
    - cbn [run_calls fold_left].
      destruct (IH (final (run_call c s))) as [e2 H2].
      destruct (run_call_extends c s) as [e1 H1].
      exists (e1 ++ e2)%list. unfold run_calls in H2. now rewrite H2, H1, app_assoc. }
  destruct H as [extra H]. exists extra. split; [exact H|].
  intros p m r Hr. rewrite H. now apply find_app_some.
Qed.

Lemma verb_conflict_table (v v' : Verb) (p : string) (l : Listener) :
  conflicts v' p (new_Route p (verb_name v) l)
  = Verb_eqb v v' || Verb_eqb v ANY || Verb_eqb v' ANY.
Proof.
  unfold conflicts. cbn [path route_method]. rewrite String.eqb_refl.
  destruct v, v'; reflexivity.
Qed.

(** X4.  Two registrations on one path.  After a binding method has
    returned for a path, a second one on that path throws exactly when
    it has the same verb, or either verb is ANY, or it would have thrown
    on the shell before the first; then the shell keeps the first
    binding and nothing more. *)
Theorem second_registration_on_path (v v' : Verb) (p : string)
    (l l' : Listener) (s : ServerShell) :
  result (register v p l s) = inr tt ->
  let s1 := final (register v p l s) in
  let o := register v' p l' s1 in
  if Verb_eqb v v' || Verb_eqb v ANY || Verb_eqb v' ANY
     || existsb (conflicts v' p) (routes s)
  then result o = inl (RouteAlreadyBoundError p) /\ final o = s1
  else result o = inr tt
       /\ routes (final o)
          = (routes s ++ [new_Route p (verb_name v) l;
                          new_Route p (verb_name v') l'])%list.
Proof.
  intros Hres. cbv zeta.
  rewrite (register_run v p l s) in *.
  destruct (existsb (conflicts v p) (routes s)) eqn:Hno; [discriminate|].
  cbn [final]. rewrite register_run.
  cbn [with_route routes]. rewrite existsb_app. cbn [existsb].
  rewrite verb_conflict_table, orb_false_r.
  rewrite (orb_comm (existsb (conflicts v' p) (routes s))).
  destruct (Verb_eqb v v' || Verb_eqb v ANY || Verb_eqb v' ANY
            || existsb (conflicts v' p) (routes s)); cbn [result final].
  - auto.
  - split; [reflexivity|]. cbn [with_route routes]. now rewrite <- app_assoc.
Qed.

(** *** The hook and the table do not see each other *)

Lemma with_middleware_twice (s : ServerShell) (m m' : Middleware) :
  with_middleware (with_middleware s m) m' = with_middleware s m'.
Proof. reflexivity. Qed.

Lemma hook_independent_ret : hook_independent (ret tt).
Proof. intros s m. reflexivity. Qed.

Lemma hook_independent_emit (ev : Event) : hook_independent (emit ev).
Proof. intros s m. reflexivity. Qed.

Lemma hook_independent_bind (c : Eff ServerShell unit) (k : Eff ServerShell unit) :
  hook_independent c -> hook_independent k ->
  hook_independent (bind c (fun _ => k)).
Proof.
  intros Hc Hk s m. unfold bind. cbv zeta. rewrite !(Hc s m).
  cbn [result final trace].
  destruct (result (c s)); cbn [result final trace]; [reflexivity|].
  rewrite !(Hk (final (c s)) m). reflexivity.
Qed.

Lemma hook_independent_for_of {A} (l : list A) (body : A -> Eff ServerShell unit) :
  Forall (fun x => hook_independent (body x)) l ->
  hook_independent (for_of l body).
Proof.
  induction 1 as [|x l Hx Hl IH].
  - apply hook_independent_ret.
  - rewrite for_of_cons. now apply hook_independent_bind.
Qed.

Lemma hook_independent_register (v : Verb) (p : string) (l : Listener) :
  hook_independent (register v p l).
Proof.
  intros s m. rewrite !register_run. cbn [with_middleware routes].
  destruct (existsb (conflicts v p) (routes s)); reflexivity.
Qed.

Lemma hook_independent_useStatic_entry (entry : DirEntry) :
  forall d r, hook_independent (useStatic_entry d r entry).
Proof.
  induction entry as [name data|name entries IH|name] using DirEntry_nested_ind;
    intros d r.
  - rewrite useStatic_entry_file. apply hook_independent_bind.
    + apply hook_independent_emit.
    + rewrite useStatic_file_get. apply hook_independent_register.
  - rewrite useStatic_entry_directory. apply hook_independent_bind.
    + apply hook_independent_emit.
    + apply hook_independent_for_of.
      apply Forall_impl with (2 := IH). intros e He. apply He.
  - apply hook_independent_ret.
Qed.

Lemma hook_independent_run_call (c : Call) :
  is_Use c = false -> hook_independent (run_call c).
Proof.
  destruct c as [v p l|m|d r es]; intros Hc; [|discriminate|].
  - apply hook_independent_register.
  - cbn [run_call]. unfold useStatic. apply hook_independent_bind.
    + apply hook_independent_emit.
    + apply hook_independent_for_of. apply Forall_forall. intros e _.
      apply hook_independent_useStatic_entry.
Qed.

(** X5.  [use] commutes with every other setup call: installing a hook
    before or after a [get], ..., [any] or [useStatic] gives the same
    shell, and that call returns or throws the same and reads the same
    files either way.  Registration never looks at the hook and never
    changes it; [use] never changes the table. *)
Theorem use_commutes_with_other_calls (c : Call) (m : Middleware) (s : ServerShell) :
  is_Use c = false ->
  final (run_call c (final (use m s))) = final (use m (final (run_call c s)))
  /\ result (run_call c (final (use m s))) = result (run_call c s)
  /\ trace (run_call c (final (use m s))) = trace (run_call c s)
  /\ middleware (final (run_call c s)) = middleware s
  /\ routes (final (use m s)) = routes s.
Proof.
  intros Hc.
  pose proof (hook_independent_run_call c Hc s m) as H.
  change (final (use m s)) with (with_middleware s m).
  rewrite H. cbn [final result trace].
  repeat split.
  apply (run_call_preserves (fun s' => middleware s' = middleware s));
    [|exact Hc|reflexivity].
  intros v s' p l Hs' _. exact Hs'.
Qed.

End Stability.

(** ** Throws during dispatch *)

Section Throws.

Context {host : Host}.

Lemma route_loop_skip_prefix (pre rs : list Route) p m req info rv w :
  existsb (matches p m) pre = false ->
  route_loop (pre ++ rs) p m req info rv w = route_loop rs p m req info rv w.
Proof.
  induction pre as [|y pre IH]; intros H; [reflexivity|].
  simpl in H. apply orb_false_elim in H as [Hy Hpre].
  cbn [app]. rewrite route_loop_skip by exact Hy. now apply IH.
Qed.

(** X6.  The handler catches nothing.  A hook that throws ends the
    dispatch before any callback is called, and the throw is the
    outcome.  A throw of the first matching callback is the outcome too,
    and then no later binding is called even if it matches; the world
    stays as the throwing code left it and no response is built. *)
Theorem throws_are_not_caught (s : ServerShell) (req : Request) (info : Info)
    (w : World) :
  (forall w1 e,
      middleware s req info w = (w1, inl e) ->
      listen_handler s req info w
      = mkOutcome w1 [Call_middleware req info] (inl e))
  /\ (forall w1 x r w2 e,
        middleware s req info w = (w1, inr x) ->
        spec_resolve (routes s) (URL_pathname (url req))
          (JS.toUpperCase (method req)) = Some r ->
        callback r req info w1 = (w2, inl e) ->
        listen_handler s req info w
        = mkOutcome w2 [Call_middleware req info; Call_callback r req info] (inl e)).
Proof.
  split.
  - intros w1 e Hmw. now rewrite listen_handler_run, Hmw.
  - intros w1 x r w2 e Hmw Hfind Hcb.
    rewrite listen_handler_run, Hmw. cbv zeta. cbn [fst snd].
    apply find_split in Hfind as (pre & post & Hrs & Hpre & Hr).
    rewrite Hrs, route_loop_skip_prefix by exact Hpre.
    rewrite route_loop_cons, Hr.
    rewrite (bind_inl _ _ w1 w2 [Call_callback r req info] e)
      by (now rewrite await_callback_run, Hcb).
    reflexivity.
Qed.

End Throws.

(** ** More on [useStatic] *)

Section StaticMore.

Context {host : Host}.

(** Whatever a call pushes was compatible with the table it found. *)
Lemma fresh_push_closed (s0 : ServerShell) :
  push_closed
    (fun s => exists extra,
         routes s = (routes s0 ++ extra)%list
         /\ Forall (fun x => forallb (fun y => compatible y x) (routes s0) = true)
                   extra).
Proof.
  intros v s p l (extra & Hs & Hall) Hno.
  exists (extra ++ [new_Route p (verb_name v) l])%list.
  cbn [with_route routes]. split; [now rewrite Hs, app_assoc|].
  apply Forall_app. split; [exact Hall|]. constructor; [|constructor].
  rewrite Hs, existsb_app in Hno. apply orb_false_elim in Hno as [Hno _].
  now apply no_conflict_all_compatible.
Qed.

(** The first regular file of the tree finds its route taken. *)
Lemma useStatic_first_route_taken (d0 r0 : string) (entries : list DirEntry)
    (s : ServerShell) (f : StaticFile) (others : list StaticFile) :
  tree_files entries = f :: others ->
  existsb (conflicts GET (static_route r0 f)) (routes s) = true ->
  result (useStatic d0 r0 entries s)
  = inl (RouteAlreadyBoundError (static_route r0 f))
  /\ final (useStatic d0 r0 entries s) = s
  /\ files_read (trace (useStatic d0 r0 entries s)) = [static_source d0 f].
Proof.
  intros Hfiles Htaken.
  destruct (useStatic_walked d0 r0 entries s) as (fs1 & fs2 & Hsplit & Hfinal & Hrun).
  assert (Hfresh : exists extra,
             routes (final (useStatic d0 r0 entries s)) = (routes s ++ extra)%list
             /\ Forall (fun x => forallb (fun y => compatible y x) (routes s) = true)
                       extra).
  { apply (useStatic_preserves _ d0 r0 entries s (fresh_push_closed s)).
    exists []. split; [now rewrite app_nil_r|constructor]. }
  destruct Hfresh as (extra & Hextra & Hall).
  rewrite Hfinal in Hextra. cbn [add_routes routes] in Hextra.
  apply app_inv_head in Hextra. subst extra.
  rewrite Hfiles in Hsplit.
  destruct fs1 as [|f1 fs1].
  - cbn [app] in Hsplit. subst fs2.
    destruct Hrun as [(_ & Hnil & _)|(f' & fs3 & Heq & Hres & Hread)];
      [discriminate|].
    injection Heq as <- <-.
    cbn [map] in Hfinal. rewrite add_routes_nil in Hfinal. auto.
  - exfalso. injection Hsplit as <- _.
    cbn [map] in Hall. apply Forall_inv in Hall.
    apply existsb_exists in Htaken as (y & Hy & Hc).
    rewrite forallb_forall in Hall. specialize (Hall y Hy).
    rewrite (conflicts_compatible GET _
               (static_listener (TextDecoder_decode (sf_data f))
                  (file_extension (sf_name f))) y) in Hc.
    apply negb_true_iff in Hc.
    unfold static_binding in Hall. cbn [verb_name] in Hc. congruence.
Qed.

(** X7.  [useStatic] on a tree whose first regular file has a route that
    is already bound for GET or ANY throws [RouteAlreadyBoundError] for
    that route, having read that one file and nothing else, and leaves
    the shell as it was. *)
Theorem useStatic_refused_at_first_file (d0 r0 : string)
    (entries : list DirEntry) (s : ServerShell)
    (f : StaticFile) (others : list StaticFile) :
  tree_files entries = f :: others ->
  existsb (conflicts GET (static_route r0 f)) (routes s) = true ->
  result (useStatic d0 r0 entries s)
  = inl (RouteAlreadyBoundError (static_route r0 f))
  /\ final (useStatic d0 r0 entries s) = s
  /\ files_read (trace (useStatic d0 r0 entries s)) = [static_source d0 f].
Proof. apply useStatic_first_route_taken. Qed.

(** X8.  Binding the same tree under the same prefix a second time
    always throws, when the tree holds a regular file and the first call
    returned: the second call is refused at the first file and changes
    nothing.  The directory it reads from does not matter. *)
Theorem useStatic_twice_is_refused (d0 d1 r0 : string) (entries : list DirEntry)
    (s : ServerShell) (f : StaticFile) (others : list StaticFile) :
  tree_files entries = f :: others ->
  result (useStatic d0 r0 entries s) = inr tt ->
  let s1 := final (useStatic d0 r0 entries s) in
  result (useStatic d1 r0 entries s1)
  = inl (RouteAlreadyBoundError (static_route r0 f))
  /\ final (useStatic d1 r0 entries s1) = s1.
Proof.
  intros Hfiles Hres. cbv zeta.
  destruct (useStatic_success _ _ _ _ Hres) as [Hfinal _].
  destruct (useStatic_first_route_taken d1 r0 entries
              (final (useStatic d0 r0 entries s)) f others Hfiles)
    as (H1 & H2 & _); [|auto].
  rewrite Hfinal, Hfiles. cbn [add_routes routes map].
  rewrite existsb_app. apply orb_true_iff. right.
  cbn [existsb]. apply orb_true_iff. left.
  exact (verb_conflict_table GET GET (static_route r0 f)
           (static_listener (TextDecoder_decode (sf_data f))
              (file_extension (sf_name f)))).
Qed.

(** X9.  A tree without regular files (empty, or holding only
    directories without files and entries that are neither file nor
    directory) is walked to the end: [useStatic] returns, reads no file
    and leaves the shell as it was. *)
Theorem useStatic_without_files (d0 r0 : string) (entries : list DirEntry)
    (s : ServerShell) :
  tree_files entries = [] ->
  result (useStatic d0 r0 entries s) = inr tt
  /\ final (useStatic d0 r0 entries s) = s
  /\ files_read (trace (useStatic d0 r0 entries s)) = [].
Proof.
  intros Hfiles.
  destruct (useStatic_walked d0 r0 entries s) as (fs1 & fs2 & Hsplit & Hfinal & Hrun).
  rewrite Hfiles in Hsplit. symmetry in Hsplit.
  apply app_eq_nil in Hsplit as [-> ->].
  cbn [map] in *. rewrite add_routes_nil in Hfinal.
  destruct Hrun as [(Hres & _ & Hread)|(f & fs3 & Heq & _)]; [auto|discriminate].
Qed.

(** Each binding a call pushed is the only match for its own path and
    method, whatever the shell held before. *)
Lemma sole_match_push_closed (s0 : ServerShell) :
  push_closed
    (fun s => exists extra,
         routes s = (routes s0 ++ extra)%list
         /\ Forall (fun x => forall m,
                      m = route_method x \/ route_method x = "ANY" ->
                      filter (matches (path x) m) (routes s) = [x])
                   extra).
Proof.
  intros v s p l (extra & Hs & Hall) Hno.
  exists (extra ++ [new_Route p (verb_name v) l])%list.
  cbn [with_route routes]. split; [now rewrite Hs, app_assoc|].
  apply Forall_app. split.
  - rewrite Forall_forall in *. intros x Hx m Hm.
    rewrite filter_app, (Hall x Hx m Hm). cbn [filter app].
    destruct (matches (path x) m (new_Route p (verb_name v) l)) eqn:E; [|reflexivity].
    exfalso. apply matches_spec in E as [Hp Hv]. cbn [path route_method] in Hp, Hv.
    assert (Hin : In x (routes s)) by (rewrite Hs; apply in_or_app; now right).
    assert (Hc : conflicts v p x = false).
    { destruct (conflicts v p x) eqn:Ec; [|reflexivity].
      assert (existsb (conflicts v p) (routes s) = true)
        by (apply existsb_exists; now exists x).
      congruence. }
    unfold conflicts in Hc. rewrite <- Hp, String.eqb_refl in Hc. cbn [andb] in Hc.
    apply orb_false_elim in Hc as [Hc Hc3].
    apply orb_false_elim in Hc as [Hc1 Hc2].
    apply String.eqb_neq in Hc1, Hc2, Hc3.
    destruct Hm as [-> | Hm]; [|congruence].
    destruct Hv; congruence.
  - constructor; [|constructor]. intros m Hm. cbn [path route_method] in *.
    rewrite filter_app.
    rewrite (existsb_false_filter _ (routes s)).
    + cbn [filter app]. rewrite new_route_matches; [reflexivity|].
      destruct Hm as [-> | Hm]; [now right|left].
      destruct v; try discriminate. reflexivity.
    + apply (no_conflict_no_match v); [|exact Hno].
      destruct Hm as [-> | Hm]; [now right|left].
      destruct v; try discriminate. reflexivity.
Qed.

(** X10.  Static files are served.  After [useStatic] has returned, a GET
    request for the route of any regular file of the tree, whose hook
    returns, is answered by that file's binding alone: the text read
    during the walk, status 200 and the content type of the file's
    extension, whatever the shell held before the walk. *)
Theorem static_file_is_served (d0 r0 : string) (entries : list DirEntry)
    (s : ServerShell) (f : StaticFile) (req : Request) (info : Info)
    (w w1 : World) (x : JSValue) :
  result (useStatic d0 r0 entries s) = inr tt ->
  In f (tree_files entries) ->
  URL_pathname (url req) = static_route r0 f ->
  JS.toUpperCase (method req) = "GET" ->
  middleware s req info w = (w1, inr x) ->
  let o := listen_handler (final (useStatic d0 r0 entries s)) req info w in
  result o
  = inr (new_Response
           (Some (BodyText (TextDecoder_decode (sf_data f))))
           (Some {| headers := Some [("Content-Type",
                                      content_type_of (file_extension (sf_name f)))];
                    status := Some 200%Z |}))
  /\ callbacks_called (trace o) = [static_binding r0 f].
Proof.
  intros Hres Hin Hp Hm Hmw. cbv zeta.
  destruct (useStatic_success _ _ _ _ Hres) as [Hfinal _].
  assert (Hsole : exists extra,
             routes (final (useStatic d0 r0 entries s)) = (routes s ++ extra)%list
             /\ Forall (fun y => forall m,
                          m = route_method y \/ route_method y = "ANY" ->
                          filter (matches (path y) m)
                            (routes (final (useStatic d0 r0 entries s))) = [y])
                       extra).
  { apply (useStatic_preserves _ d0 r0 entries s (sole_match_push_closed s)).
    exists []. split; [now rewrite app_nil_r|constructor]. }
  destruct Hsole as (extra & Hextra & Hall).
  assert (Hex : extra = map (static_binding r0) (tree_files entries)).
  { rewrite Hfinal in Hextra. cbn [add_routes routes] in Hextra.
    now apply app_inv_head in Hextra. }
  rewrite Forall_forall in Hall.
  assert (Hfilter : filter (matches (URL_pathname (url req))
                              (JS.toUpperCase (method req)))
                      (routes (final (useStatic d0 r0 entries s)))
                    = [static_binding r0 f]).
  { rewrite Hp, Hm.
    apply (Hall (static_binding r0 f)); [|now left].
    rewrite Hex. now apply in_map. }
  assert (Hmw' : middleware (final (useStatic d0 r0 entries s)) req info w
                 = (w1, inr x)) by (now rewrite Hfinal).
  rewrite (listen_handler_sole_match _ _ _ _ _ _ _ Hfilter Hmw').
  cbn [result trace callbacks_called flat_map app static_binding callback].
  split; [|reflexivity].
  unfold static_listener. rewrite <- (MIMEFromExt_content_type _ w1).
  destruct (MIMEFromExt (file_extension (sf_name f)) w1); reflexivity.
Qed.

End StaticMore.

(** ** The name and the extension of a file *)

Lemma split_pieces_no_sep (sep : ascii) (s : string) :
  Forall (fun piece => has_char sep piece = false) (JS.split sep s).
Proof.
  induction s as [|c s IH]; simpl.
  - constructor; [reflexivity|constructor].
  - destruct (Ascii.eqb c sep) eqn:Hc.
    + constructor; [reflexivity|exact IH].
    + destruct (JS.split sep s) as [|seg segs]; [repeat constructor; simpl; now rewrite Hc|].
      inversion IH as [|? ? Hseg Hsegs]; subst.
      constructor; [|exact Hsegs]. simpl. now rewrite Hc, Hseg.
Qed.

(** X11.  The split of a file name in [useStatic] loses nothing.  Every
    name has an extension (the array read never yields [undefined]) and
    the extension holds no dot; a name with a dot is its name part, a
    dot and its extension put together again; a name without a dot is
    its own extension and has the empty name part. *)
Theorem file_name_split_round_trip (name : string) :
  exists ext,
    file_extension name = Some ext
    /\ has_char "." ext = false
    /\ if has_char "." name
       then name = file_stem name ++ "." ++ ext
       else ext = name /\ file_stem name = EmptyString.
Proof.
  destruct (has_char "." name) eqn:Hdot.
  - pose proof (split_nonempty "." name) as Hne.
    pose proof (split_pieces_no_sep "." name) as Hpieces.
    pose proof (join_split "." name) as Hjoin.
    unfold file_extension, file_stem, JS.pop.
    destruct (exists_last Hne) as (front & ext & Hsplit).
    rewrite Hsplit in *. rewrite last_elem_snoc, removelast_last.
    exists ext. split; [reflexivity|].
    apply Forall_app in Hpieces as [_ Hext]. apply Forall_inv in Hext.
    split; [exact Hext|].
    destruct front as [|x front].
    + simpl in Hjoin. congruence.
    + rewrite join_snoc in Hjoin by discriminate. now symmetry.
  - exists name. destruct (split_without_dot name Hdot) as [Hstem Hext].
    auto.
Qed.

(** ** The earlier revision *)

Section LegacyFacts.

Context {host : Host}.

Lemma legacy_get_run (p : string) (l : Listener) (s : ServerShell) :
  Legacy.get p l s
  = if existsb (fun r => String.eqb (path r) p) (routes s)
    then mkOutcome s [] (inl (RouteAlreadyBoundError p))
    else mkOutcome (with_route s (new_Route p "GET" l)) [] (inr tt).
Proof. apply scan_then_push. Qed.

Lemma legacy_post_run (p : string) (l : Listener) (s : ServerShell) :
  Legacy.post p l s
  = if existsb (fun r => String.eqb (path r) p) (routes s)
    then mkOutcome s [] (inl (RouteAlreadyBoundError p))
    else mkOutcome (with_route s (new_Route p "POST" l)) [] (inr tt).
Proof. apply scan_then_push. Qed.

(** A table of the earlier revision: no path twice, GET and POST only. *)
Lemma legacy_push_keeps (s : ServerShell) (p m : string) (l : Listener) :
  NoDup (map path (routes s))
  /\ Forall (fun r => route_method r = "GET" \/ route_method r = "POST") (routes s) ->
  existsb (fun r => String.eqb (path r) p) (routes s) = false ->
  m = "GET" \/ m = "POST" ->
  NoDup (map path (routes (with_route s (new_Route p m l))))
  /\ Forall (fun r => route_method r = "GET" \/ route_method r = "POST")
            (routes (with_route s (new_Route p m l))).
Proof.
  intros [Hnd Hm] Hfree Hverb. cbn [with_route routes]. split.
  - rewrite map_app. cbn [map path].
    apply NoDup_app; [exact Hnd|repeat constructor; intros []|].
    intros q Hq [Heq|[]]. subst q.
    apply in_map_iff in Hq as (r & Hr & Hin).
    assert (existsb (fun r => String.eqb (path r) p) (routes s) = true).
    { apply existsb_exists. exists r. split; [exact Hin|].
      now rewrite Hr, String.eqb_refl. }
    congruence.
  - apply Forall_app. split; [exact Hm|]. constructor; [exact Hverb|constructor].
Qed.

Lemma legacy_useStatic_entry_keeps (entry : DirEntry) :
  forall d r s,
    NoDup (map path (routes s))
    /\ Forall (fun r => route_method r = "GET" \/ route_method r = "POST") (routes s) ->
    NoDup (map path (routes (final (Legacy.useStatic_entry d r entry s))))
    /\ Forall (fun r => route_method r = "GET" \/ route_method r = "POST")
              (routes (final (Legacy.useStatic_entry d r entry s))).
Proof.
  induction entry as [name data|name entries IH|name] using DirEntry_nested_ind;
    intros d r s Hs.
  - cbn [Legacy.useStatic_entry].
    apply (bind_preserves
             (fun s => NoDup (map path (routes s))
                       /\ Forall (fun r => route_method r = "GET"
                                           \/ route_method r = "POST") (routes s)));
      [exact Hs|].
    intros _ s' Hs'. unfold Legacy.useStatic_file. rewrite legacy_get_run.
    destruct (existsb _ (routes s')) eqn:E; cbn [final]; [exact Hs'|].
    apply legacy_push_keeps; auto.
  - cbn [Legacy.useStatic_entry].
    apply (bind_preserves
             (fun s => NoDup (map path (routes s))
                       /\ Forall (fun r => route_method r = "GET"
                                           \/ route_method r = "POST") (routes s)));
      [exact Hs|].
    intros _ s' Hs'.
    apply (for_of_preserves
             (fun s => NoDup (map path (routes s))
                       /\ Forall (fun r => route_method r = "GET"
                                           \/ route_method r = "POST") (routes s)));
      [|exact Hs'].
    apply Forall_impl with (2 := IH). intros e He s0 Hs0. now apply He.
  - exact Hs.
Qed.

Lemma legacy_reachable_keeps (s : ServerShell) :
  Legacy.reachable s ->
  NoDup (map path (routes s))
  /\ Forall (fun r => route_method r = "GET" \/ route_method r = "POST") (routes s).
Proof.
  induction 1 as [cfg|s c Hreach IH].
  - split; constructor.
  - destruct c as [p l|p l|m|d r es]; cbn [Legacy.run_call].
    + rewrite legacy_get_run.
      destruct (existsb _ (routes s)) eqn:E; cbn [final]; [exact IH|].
      apply legacy_push_keeps; auto.
    + rewrite legacy_post_run.
      destruct (existsb _ (routes s)) eqn:E; cbn [final]; [exact IH|].
      apply legacy_push_keeps; auto.
    + exact IH.
    + unfold Legacy.useStatic.
      apply (bind_preserves
               (fun s => NoDup (map path (routes s))
                         /\ Forall (fun r => route_method r = "GET"
                                             \/ route_method r = "POST") (routes s)));
        [exact IH|].
      intros _ s' Hs'.
      apply (for_of_preserves
               (fun s => NoDup (map path (routes s))
                         /\ Forall (fun r => route_method r = "GET"
                                             \/ route_method r = "POST") (routes s)));
        [|exact Hs'].
      apply Forall_forall. intros e _ s0 Hs0.
      now apply legacy_useStatic_entry_keeps.
Qed.

(** X12.  In the earlier revision a path is bound at most once: on every
    shell built by its [get], [post], [use] and [useStatic] calls,
    returning or throwing, no two bindings share a path, and every
    binding is a GET or a POST binding.  A POST binding therefore blocks
    [get] on its path, and the other way round. *)
Theorem legacy_paths_are_unique (s : ServerShell) :
  Legacy.reachable s ->
  NoDup (map path (routes s))
  /\ Forall (fun r => route_method r = "GET" \/ route_method r = "POST") (routes s).
Proof. apply legacy_reachable_keeps. Qed.

(** X13.  The ANY arm that mod.ts adds to the loop of [listen] changes
    nothing for the shells of the earlier revision: on every shell built
    by the earlier [get], [post], [use] and [useStatic], the earlier
    handler and the handler of mod.ts have the same outcome for every
    request. *)
Theorem legacy_handler_agrees (s : ServerShell) (req : Request) (info : Info)
    (w : World) :
  Legacy.reachable s ->
  Legacy.listen_handler s req info w = listen_handler s req info w.
Proof.
  intros Hreach.
  destruct (legacy_reachable_keeps s Hreach) as [_ Hverbs].
  assert (Hany : forallb (fun r => negb (String.eqb (route_method r) "ANY"))
                   (routes s) = true).
  { apply forallb_forall. intros r Hr. rewrite Forall_forall in Hverbs.
    destruct (Hverbs r Hr) as [-> | ->]; reflexivity. }
  unfold Legacy.listen_handler, listen_handler. cbv zeta.
  unfold bind at 1 3.
  destruct (result (call_middleware (middleware s) req info w)); [reflexivity|].
  unfold bind. now rewrite legacy_route_loop.
Qed.

(** X14.  The earlier [useStatic] looks at the first two dot-separated
    pieces of a name only.  A name without a dot has no extension and is
    served as [text/plain]; every name that starts with [index.html.],
    such as [index.html.bak], passes the index test, is bound to the
    route of its directory and served as [text/html]. *)
Theorem legacy_first_two_pieces (route contents : string) :
  (forall name,
      has_char "." name = false ->
      Legacy.file_stem name = Some name
      /\ Legacy.file_extension name = None
      /\ Legacy.useStatic_file route name contents
         = Legacy.get (JS.replaceAll "\" "/" route)
             (Legacy.static_listener contents None)
      /\ Legacy.MIMEFromExt None = "text/plain")
  /\ (forall more,
        Legacy.useStatic_file route ("index.html." ++ more) contents
        = Legacy.get (JS.replaceAll "\" "/" (Path.join route ".."))
            (Legacy.static_listener contents (Some "html"))
        /\ Legacy.MIMEFromExt (Some "html") = "text/html").
Proof.
  split.
  - intros name Hdot.
    unfold Legacy.useStatic_file, Legacy.file_stem, Legacy.file_extension.
    rewrite split_no_sep by exact Hdot. cbn [nth_error option_string_eqb].
    rewrite andb_false_r. auto.
  - intros more. split; [|reflexivity].
    unfold Legacy.useStatic_file, Legacy.file_stem, Legacy.file_extension.
    change ("index.html." ++ more)
      with ("index" ++ String "." ("html" ++ String "." more)).
    rewrite !split_app_first by reflexivity.
    reflexivity.
Qed.

End LegacyFacts.

(** ** The two MIME tables *)

(** X15.  The table of mod.ts extends the earlier one: every extension
    the earlier [MIMEFromExt] knows keeps its content type in mod.ts. *)
Theorem MIME_table_extends_legacy (ext : string) :
  Legacy.MIMEFromExt (Some ext) <> "text/plain" ->
  content_type_of (Some ext) = Legacy.MIMEFromExt (Some ext).
Proof.
  intros H. unfold Legacy.MIMEFromExt in *. cbv zeta in *.
  repeat match type of H with
         | context [String.eqb ext ?k] =>
             destruct (String.eqb_spec ext k) as [Heq|?];
             [subst ext; reflexivity|]; cbn [orb] in H
         end.
  exfalso. apply H. reflexivity.
Qed.

(** ** The further properties on concrete shells *)

Lemma registered_listener_answers_witness :
  listen_handler (final (register GET "/new" (demo_listener "new") demo_shell))
    (demo_request "get" "http://localhost:8000/new") tt []
  = mkOutcome []
      [Call_middleware (demo_request "get" "http://localhost:8000/new") tt;
       Call_callback (new_Route "/new" "GET" (demo_listener "new"))
         (demo_request "get" "http://localhost:8000/new") tt]
      (inr (new_Response (Some (BodyText "new")) None)).
Proof.
  apply (registered_listener_answers GET "/new" (demo_listener "new") demo_shell
           (demo_request "get" "http://localhost:8000/new") tt [] []
           (@undefined demo_host)).
  - reflexivity.
  - reflexivity.
  - right. reflexivity.
  - reflexivity.
Defined.

Lemma reachable_binding_answers_alone_witness :
  listen_handler demo_shell (demo_request "PATCH" "http://localhost:8000/b") tt []
  = mkOutcome []
      [Call_middleware (demo_request "PATCH" "http://localhost:8000/b") tt;
       Call_callback (new_Route "/b" "ANY" (demo_listener "any b"))
         (demo_request "PATCH" "http://localhost:8000/b") tt]
      (inr (new_Response (Some (BodyText "any b")) None)).
Proof.
  apply (reachable_binding_answers_alone demo_shell
           (new_Route "/b" "ANY" (demo_listener "any b"))
           (demo_request "PATCH" "http://localhost:8000/b") tt [] []
           (@undefined demo_host)).
  - unfold demo_shell. apply run_calls_reachable. apply reachable_new.
  - vm_compute. right. right. left. reflexivity.
  - reflexivity.
  - right. reflexivity.
  - reflexivity.
Defined.

Lemma setup_calls_only_append_witness :
  spec_resolve (routes (run_calls [Bind ANY "/a" (demo_listener "late");
                                   Bind PUT "/a" (demo_listener "put a")]
                          demo_shell)) "/a" "GET"
  = Some (new_Route "/a" "GET" (demo_listener "get a")).
Proof.
  destruct (setup_calls_only_append
              [Bind ANY "/a" (demo_listener "late");
               Bind PUT "/a" (demo_listener "put a")] demo_shell)
    as (extra & _ & Hkeep).
  apply Hkeep. reflexivity.
Defined.

Lemma second_registration_on_path_witness :
  result (register POST "/new" (demo_listener "post")
            (final (register GET "/new" (demo_listener "get") demo_shell)))
  = inr tt
  /\ result (register ANY "/new" (demo_listener "any")
               (final (register GET "/new" (demo_listener "get") demo_shell)))
     = inl (RouteAlreadyBoundError "/new").
Proof.
  pose proof (second_registration_on_path GET POST "/new" (demo_listener "get")
                (demo_listener "post") demo_shell eq_refl) as Hpost.
  pose proof (second_registration_on_path GET ANY "/new" (demo_listener "get")
                (demo_listener "any") demo_shell eq_refl) as Hany.
  cbv zeta in Hpost, Hany.
  replace (existsb (conflicts POST "/new") (routes demo_shell)) with false in Hpost
    by (vm_compute; reflexivity).
  cbn [Verb_eqb orb] in Hpost, Hany.
  split; [exact (proj1 Hpost)|exact (proj1 Hany)].
Defined.

Lemma use_commutes_with_other_calls_witness :
  final (run_call (UseStatic "./more" "/more" demo_tree)
           (final (use (demo_hook 1) demo_shell)))
  = final (use (demo_hook 1)
             (final (run_call (UseStatic "./more" "/more" demo_tree) demo_shell))).
Proof.
  apply (use_commutes_with_other_calls
           (UseStatic "./more" "/more" demo_tree) (demo_hook 1) demo_shell).
  reflexivity.
Defined.

Lemma throws_are_not_caught_witness :
  listen_handler (final (use demo_throwing_hook demo_shell))
    (demo_request "GET" "http://localhost:8000/a") tt []
  = mkOutcome ["hook"]
      [Call_middleware (demo_request "GET" "http://localhost:8000/a") tt]
      (inl (@Thrown demo_host 7))
  /\ listen_handler
       (final (register GET "/boom" demo_throwing_listener demo_shell))
       (demo_request "GET" "http://localhost:8000/boom") tt []
     = mkOutcome ["listener"]
         [Call_middleware (demo_request "GET" "http://localhost:8000/boom") tt;
          Call_callback (new_Route "/boom" "GET" demo_throwing_listener)
            (demo_request "GET" "http://localhost:8000/boom") tt]
         (inl (@Thrown demo_host 9)).
Proof.
  split.
  - apply (proj1 (throws_are_not_caught
                    (final (use demo_throwing_hook demo_shell))
                    (demo_request "GET" "http://localhost:8000/a") tt [])).
    reflexivity.
  - apply (proj2 (throws_are_not_caught
                    (final (register GET "/boom" demo_throwing_listener demo_shell))
                    (demo_request "GET" "http://localhost:8000/boom") tt [])
             [] (@undefined demo_host)
             (new_Route "/boom" "GET" demo_throwing_listener)); reflexivity.
Defined.

Lemma useStatic_refused_at_first_file_witness :
  result (useStatic "./other" "/static" demo_tree demo_shell)
  = inl (RouteAlreadyBoundError "/static")
  /\ final (useStatic "./other" "/static" demo_tree demo_shell) = demo_shell
  /\ files_read (trace (useStatic "./other" "/static" demo_tree demo_shell))
     = ["other/index.html"].
Proof.
  apply (useStatic_refused_at_first_file "./other" "/static" demo_tree demo_shell
           (@mkStaticFile demo_host [] "index.html" "<h1>home</h1>")
           (tl (tree_files demo_tree))); reflexivity.
Defined.

Lemma useStatic_twice_is_refused_witness :
  result (useStatic "./other" "/static" demo_tree
            (final (useStatic "./static" "/static" demo_tree
                      (@ServerShell_new demo_host None))))
  = inl (RouteAlreadyBoundError "/static").
Proof.
  apply (useStatic_twice_is_refused "./static" "./other" "/static" demo_tree
           (@ServerShell_new demo_host None)
           (@mkStaticFile demo_host [] "index.html" "<h1>home</h1>")
           (tl (tree_files demo_tree))); reflexivity.
Defined.

Lemma useStatic_without_files_witness :
  result (useStatic "./static" "/static" demo_empty_tree demo_shell) = inr tt
  /\ final (useStatic "./static" "/static" demo_empty_tree demo_shell) = demo_shell
  /\ files_read (trace (useStatic "./static" "/static" demo_empty_tree demo_shell))
     = [].
Proof.
  apply (useStatic_without_files "./static" "/static" demo_empty_tree demo_shell).
  reflexivity.
Defined.

Lemma static_file_is_served_witness :
  result (listen_handler demo_shell
            (demo_request "get" "http://localhost:8000/static/img/archive.tar.gz")
            tt [])
  = inr (new_Response (Some (BodyText "gz"))
           (Some {| headers := Some [("Content-Type", "application/gzip")];
                    status := Some 200%Z |})).
Proof.
  apply (static_file_is_served "./static" "/static" demo_tree
           (run_calls (removelast demo_calls) (ServerShell_new None))
           (@mkStaticFile demo_host ["img"] "archive.tar.gz" "gz")
           (demo_request "get" "http://localhost:8000/static/img/archive.tar.gz")
           tt [] [] (@undefined demo_host)).
  - reflexivity.
  - right. right. right. left. reflexivity.
  - reflexivity.
  - reflexivity.
  - reflexivity.
Defined.

Lemma legacy_demo_shell_reachable : Legacy.reachable legacy_demo_shell.
Proof.
  unfold legacy_demo_shell, legacy_demo_calls. cbn [fold_left].
  repeat apply Legacy.reachable_call. apply Legacy.reachable_new.
Qed.

Lemma legacy_paths_are_unique_witness :
  NoDup (map path (routes legacy_demo_shell)).
Proof.
  apply (legacy_paths_are_unique legacy_demo_shell).
  apply legacy_demo_shell_reachable.
Defined.

Lemma legacy_handler_agrees_witness :
  Legacy.listen_handler legacy_demo_shell
    (demo_request "POST" "http://localhost:8000/b") tt []
  = listen_handler legacy_demo_shell
      (demo_request "POST" "http://localhost:8000/b") tt [].
Proof.
  apply (legacy_handler_agrees legacy_demo_shell).
  apply legacy_demo_shell_reachable.
Defined.

Lemma legacy_first_two_pieces_witness :
  @Legacy.file_extension "Makefile" = None
  /\ @Legacy.useStatic_file demo_host "/docs/index.html.bak" "index.html.bak" "old"
     = Legacy.get "/docs"
         (Legacy.static_listener "old" (Some "html")).
Proof.
  split.
  - apply (proj1 (@legacy_first_two_pieces demo_host "/Makefile" "all:") "Makefile").
    reflexivity.
  - apply (proj2 (@legacy_first_two_pieces demo_host "/docs/index.html.bak" "old")
             "bak").
Defined.

Lemma MIME_table_extends_legacy_witness :
  content_type_of (Some "php") = "application/x-httpd-php".
Proof.
  apply (MIME_table_extends_legacy "php"). discriminate.
Defined.

(** ** What the UTF-8 decoder does to file contents *)

Lemma lead_ascii (b : ascii) :
  (nat_of_ascii b <=? 127)%nat = true -> Encoding.lead b = Encoding.Single.
Proof. intros H. unfold Encoding.lead. cbv zeta. now rewrite H. Qed.

(** Contents made of ASCII bytes are decoded to themselves. *)
Lemma decode_ascii (bytes : string) :
  Encoding.all_ascii bytes = true -> Encoding.TextDecoder_utf8 bytes = bytes.
Proof.
  intros H. unfold Encoding.TextDecoder_utf8.
  assert (Hbom : Encoding.strip_BOM bytes = bytes).
  { destruct bytes as [|b1 [|b2 [|b3 rest]]]; try reflexivity.
    simpl in H. apply andb_true_iff in H as [H1 _].
    unfold Encoding.strip_BOM.
    destruct (Nat.eqb_spec (nat_of_ascii b1) 239) as [E|_]; [|reflexivity].
    rewrite E in H1. discriminate. }
  rewrite Hbom. clear Hbom.
  induction bytes as [|b rest IH]; [reflexivity|].
  simpl in H. apply andb_true_iff in H as [Hb Hrest].
  cbn [Encoding.utf8_decode]. rewrite (lead_ascii b Hb). now rewrite IH.
Qed.

(** C9.  [useStatic] reads each file once and binds it for GET with
    status 200 and the content type of its extension, but what the
    binding returns is the file's bytes decoded as UTF-8 text, not the
    bytes: for [logo.png], whose first byte 89 is no UTF-8, the body
    starts with U+FFFD, and for a text file with a byte order mark the
    mark is gone.  ASCII contents come back as they are. *)
Theorem static_file_contents_are_altered :
  result (useStatic "./static" "/static" deno_tree
            (@ServerShell_new deno_host None)) = inr tt
  /\ files_read (trace (useStatic "./static" "/static" deno_tree
                          (@ServerShell_new deno_host None)))
     = ["static/logo.png"; "static/notes.txt"; "static/plain.txt"]
  /\ result (listen_handler deno_shell
               (deno_request "GET" "http://localhost:8000/static/logo.png") tt [])
     = inr (new_Response
              (Some (BodyText (Encoding.replacement ++ "PNG")))
              (Some {| headers := Some [("Content-Type", "image/png")];
                       status := Some 200%Z |}))
  /\ Encoding.replacement ++ "PNG" <> png_bytes
  /\ result (listen_handler deno_shell
               (deno_request "GET" "http://localhost:8000/static/notes.txt") tt [])
     = inr (new_Response
              (Some (BodyText "hi"))
              (Some {| headers := Some [("Content-Type", "text/plain")];
                       status := Some 200%Z |}))
  /\ "hi" <> bom_bytes
  /\ result (listen_handler deno_shell
               (deno_request "GET" "http://localhost:8000/static/plain.txt") tt [])
     = inr (new_Response
              (Some (BodyText "plain text"))
              (Some {| headers := Some [("Content-Type", "text/plain")];
                       status := Some 200%Z |})).
Proof.
  repeat split; try reflexivity; vm_compute; discriminate.
Qed.
